(** * Commission reconciliation: the statements page and its API client

    A shallow embedding of the parts of [frontend/src/pages/statements.tsx]
    and of the API client ([lib/api]) that decide how manual overrides,
    payroll controls and upload/match advisories behave, together with the
    policy matcher, tier resolver, commission calculator and payroll
    ledger of the specification, whose server side is not part of the
    sources.

    Conventions.
    - A JavaScript number is an exact rational ([Qc]), extended with [NaN]
      and the two infinities in results.  Rounding of doubles and the sign
      of zero are not modelled; the operators [add], [mul] and [div] are
      exact.  The shape of the pay formula is therefore stated for
      arbitrary operators ([getAdjustedCommissionOps]), of which the exact
      ones are an instance.
    - A JSON field of an [any]-typed response is a [value]: absent
      ([Undefined]), [Null], or a finite number.
    - Objects used as dictionaries ([Record<number, number>], [params]) are
      [gmap]s; agent ids are integers.  [Object.keys(..).map(Number)]
      followed by [String(id)] is the identity on such keys, so the
      overrides map keeps integer keys. *)

From Stdlib Require Import QArith Qcanon Field Ascii String Sorted.
From stdpp Require Import base numbers option list strings gmap fin_maps pretty.

Local Open Scope Qc_scope.

(** ** JavaScript numbers and values *)

Module Js.

Inductive number :=
  | NaN
  | Inf (negative : bool)
  | Num (q : Qc).

Inductive value :=
  | Undefined
  | Null
  | Number (q : Qc).

#[global] Instance number_eq_dec : EqDecision number.
Proof. solve_decision. Defined.

#[global] Instance value_eq_dec : EqDecision value.
Proof. solve_decision. Defined.

Definition is_neg (q : Qc) : bool := bool_decide (q < 0).

(** [ToNumber]: [undefined] becomes [NaN], [null] becomes [0]. *)
Definition ToNumber (v : value) : number :=
  match v with
  | Undefined => NaN
  | Null => Num 0
  | Number q => Num q
  end.

(** [ToBoolean]: [undefined], [null] and [0] are falsy. *)
Definition truthy (v : value) : bool :=
  match v with
  | Undefined | Null => false
  | Number q => negb (bool_decide (q = 0))
  end.

(** [a || b] on values. *)
Definition or (a b : value) : value := if truthy a then a else b.

(** [x + y] on numbers. *)
Definition add (x y : number) : number :=
  match x, y with
  | NaN, _ | _, NaN => NaN
  | Inf s, Inf t => if bool_decide (s = t) then Inf s else NaN
  | Inf s, Num _ => Inf s
  | Num _, Inf t => Inf t
  | Num p, Num q => Num (p + q)
  end.

(** [x * y] on numbers. *)
Definition mul (x y : number) : number :=
  match x, y with
  | NaN, _ | _, NaN => NaN
  | Inf s, Inf t => Inf (xorb s t)
  | Inf s, Num q => if bool_decide (q = 0) then NaN else Inf (xorb s (is_neg q))
  | Num p, Inf t => if bool_decide (p = 0) then NaN else Inf (xorb (is_neg p) t)
  | Num p, Num q => Num (p * q)
  end.

(** [x / y] on numbers; a finite number over zero is an infinity and
    [0 / 0] is [NaN]. *)
Definition div (x y : number) : number :=
  match x, y with
  | NaN, _ | _, NaN => NaN
  | Inf _, Inf _ => NaN
  | Inf s, Num q => Inf (xorb s (is_neg q))
  | Num _, Inf _ => Num 0
  | Num p, Num q =>
      if bool_decide (q = 0)
      then (if bool_decide (p = 0) then NaN else Inf (is_neg p))
      else Num (p / q)
  end.

End Js.

Import Js.

(** ** Monthly pay view: manual overrides and the adjusted commission *)

(** The fields of an agent summary that [getAdjustedCommission] reads. *)
Record AgentSummary := {
  agent_id : Z;
  net_agent_commission : value;
  total_agent_commission : value;
  commission_rate : value;
}.

(** [dict[k] || 0] for a [Record<number, number>] *)
Definition orZero (o : option Qc) : Qc :=
  match o with
  | Some q => if bool_decide (q = 0) then 0 else q
  | None => 0
  end.

(** [const getAdjustment = (agentId) => rateAdjustments[agentId] || 0] *)
Definition getAdjustment (rateAdjustments : gmap Z Qc) (agentId : Z) : Qc :=
  orZero (rateAdjustments !! agentId).

(** [setRateAdjustments(prev => ({ ...prev, [agentId]: adj }))] *)
Definition setAdjustment (rateAdjustments : gmap Z Qc) (agentId : Z) (adj : Qc)
  : gmap Z Qc :=
  <[agentId := adj]> rateAdjustments.

(** [const getBonus = (agentId) => bonuses[agentId] || 0] *)
Definition getBonus (bonuses : gmap Z Qc) (agentId : Z) : Qc :=
  orZero (bonuses !! agentId).

(** [setBonuses(prev => ({ ...prev, [agentId]: val }))] *)
Definition setBonus (bonuses : gmap Z Qc) (agentId : Z) (val : Qc) : gmap Z Qc :=
  <[agentId := val]> bonuses.

(** [agent.net_agent_commission || agent.total_agent_commission] *)
Definition basePay (agent : AgentSummary) : value :=
  Js.or (net_agent_commission agent) (total_agent_commission agent).

(** [getAdjustedCommission], statements.tsx lines 808-818.  The division
    operator is a parameter of the body, so that a theorem can say that a
    result does not depend on what the division would have produced. *)
Definition getAdjustedCommissionWith (divide : number → number → number)
    (rateAdjustments bonuses : gmap Z Qc) (agent : AgentSummary) : number :=
  let adj := getAdjustment rateAdjustments (agent_id agent) in
  let bonus := getBonus bonuses (agent_id agent) in
  let basePay := basePay agent in
  if bool_decide (adj = 0) then add (ToNumber basePay) (Num bonus)
  else
    let baseRate := commission_rate agent in
    if negb (truthy baseRate) then add (ToNumber basePay) (Num bonus)
    else
      let commissionablePremium := divide (ToNumber basePay) (ToNumber baseRate) in
      add (mul commissionablePremium (add (ToNumber baseRate) (Num adj)))
          (Num bonus).

Definition getAdjustedCommission := getAdjustedCommissionWith div.

(** [getAdjustedCommission] with the three arithmetic operators of its
    body, [+], [*] and [/], as parameters: a statement made for every
    choice of the operators does not depend on how they round.  The
    instance at [add], [mul] and [div] is [getAdjustedCommission]. *)
Definition getAdjustedCommissionOps
    (plus times divide : number → number → number)
    (rateAdjustments bonuses : gmap Z Qc) (agent : AgentSummary) : number :=
  let adj := getAdjustment rateAdjustments (agent_id agent) in
  let bonus := getBonus bonuses (agent_id agent) in
  let basePay := basePay agent in
  if bool_decide (adj = 0) then plus (ToNumber basePay) (Num bonus)
  else
    let baseRate := commission_rate agent in
    if negb (truthy baseRate) then plus (ToNumber basePay) (Num bonus)
    else
      let commissionablePremium := divide (ToNumber basePay) (ToNumber baseRate) in
      plus (times commissionablePremium (plus (ToNumber baseRate) (Num adj)))
           (Num bonus).

(** ** Payroll submit: the overrides sent to the server *)

Record Override := {
  rate_adjustment : Qc;
  bonus : Qc;
}.

#[global] Instance Override_eq_dec : EqDecision Override.
Proof. solve_decision. Defined.

(** [Object.keys(dict).map(Number)] *)
Definition keys (dict : gmap Z Qc) : list Z := (map_to_list dict).*1.

(** [new Set([...Object.keys(rateAdjustments).map(Number),
              ...Object.keys(bonuses).map(Number)])], in insertion order. *)
Definition allAgentIds (rateAdjustments bonuses : gmap Z Qc) : list Z :=
  remove_dups (keys rateAdjustments ++ keys bonuses).

(** The body of [allAgentIds.forEach(id => ...)], statements.tsx lines
    1040-1046. *)
Definition addOverride (rateAdjustments bonuses : gmap Z Qc)
    (agentOverrides : gmap Z Override) (id : Z) : gmap Z Override :=
  let adj := orZero (rateAdjustments !! id) in
  let bon := orZero (bonuses !! id) in
  if negb (bool_decide (adj = 0)) || negb (bool_decide (bon = 0))
  then <[id := {| rate_adjustment := adj; bonus := bon |}]> agentOverrides
  else agentOverrides.

Definition buildAgentOverrides (rateAdjustments bonuses : gmap Z Qc)
  : gmap Z Override :=
  foldl (addOverride rateAdjustments bonuses) ∅
        (allAgentIds rateAdjustments bonuses).

(** The body posted by [payrollAPI.submit]:
    [{ agent_overrides: agentOverrides || {} }]. *)
Record SubmitRequest := {
  submit_url : string;
  agent_overrides : gmap Z Override;
}.

Definition payrollAPI_submit (period : string)
    (agentOverrides : option (gmap Z Override)) : SubmitRequest :=
  {| submit_url := "/api/payroll/submit/" +:+ period;
     agent_overrides := default ∅ agentOverrides |}.

(** The request issued by [handleSubmit] once the user has confirmed. *)
Definition handleSubmit_request (period : string)
    (rateAdjustments bonuses : gmap Z Qc) : SubmitRequest :=
  payrollAPI_submit period (Some (buildAgentOverrides rateAdjustments bonuses)).

(** An agent has a manual override when its rate adjustment or its bonus
    is nonzero. *)
Definition overridden (rateAdjustments bonuses : gmap Z Qc) (agentId : Z)
  : Prop :=
  getAdjustment rateAdjustments agentId ≠ 0 ∨ getBonus bonuses agentId ≠ 0.

#[global] Instance overridden_dec rateAdjustments bonuses agentId :
  Decision (overridden rateAdjustments bonuses agentId).
Proof. unfold overridden. apply _. Defined.

(** ** Agent sheet requests *)

(** An optional numeric argument ([x?: number]) is truthy when it is
    present and nonzero. *)
Definition truthyArg (x : option Qc) : bool :=
  match x with
  | Some q => negb (bool_decide (q = 0))
  | None => false
  end.

Record AgentSheetRequest := {
  sheet_url : string;
  sheet_params : option (gmap string Qc);
}.

(** [if (x) params.key = x] *)
Definition setIfTruthy (key : string) (x : option Qc) (params : gmap string Qc)
  : gmap string Qc :=
  match x with
  | Some q => if truthyArg x then <[key := q]> params else params
  | None => params
  end.

(** [reconciliationAPI.agentSheet]. *)
Definition agentSheet (period : string) (agentId : Z)
    (rateAdjustment bonus : option Qc) : AgentSheetRequest :=
  let params : gmap string Qc := ∅ in
  let params := setIfTruthy "rate_adjustment" rateAdjustment params in
  let params := setIfTruthy "bonus" bonus params in
  {| sheet_url :=
       "/api/reconciliation/agent-sheet/" +:+ period +:+ "/" +:+ pretty agentId;
     sheet_params :=
       if bool_decide (size params = 0%nat) then None else Some params |}.

(** [reconciliationAPI.agentSheetPdfUrl]. *)
Definition agentSheetPdfUrl (period : string) (agentId : Z) : string :=
  "/api/reconciliation/agent-sheet/" +:+ period +:+ "/" +:+ pretty agentId
  +:+ "/pdf".

(** The props of [AgentSheetModal]: [rateAdjustment = 0, bonus = 0] when
    not passed. *)
Definition propOrZero (x : option Qc) : Qc := default 0 x.

(** The request of the modal's effect:
    [reconciliationAPI.agentSheet(period, agentId, rateAdjustment, bonus)]. *)
Definition AgentSheetModal_load (period : string) (agentId : Z)
    (rateAdjustment bonus : option Qc) : AgentSheetRequest :=
  agentSheet period agentId (Some (propOrZero rateAdjustment))
             (Some (propOrZero bonus)).

(** The request of [handleDownloadPdf]: the path and the entries put in
    [URLSearchParams]; [?query] is appended to the path when the query is
    not empty.  The values are the numbers before [String(..)]. *)
Record PdfRequest := {
  pdf_path : string;
  pdf_query : list (string * Qc);
}.

Definition handleDownloadPdf (apiBase period : string) (agentId : Z)
    (rateAdjustment bonus : option Qc) : PdfRequest :=
  let rateAdjustment := propOrZero rateAdjustment in
  let bonus := propOrZero bonus in
  let params : list (string * Qc) := [] in
  let params := if negb (bool_decide (rateAdjustment = 0))
                then params ++ [("rate_adjustment", rateAdjustment)]
                else params in
  let params := if negb (bool_decide (bonus = 0))
                then params ++ [("bonus", bonus)]
                else params in
  {| pdf_path := apiBase +:+ agentSheetPdfUrl period agentId;
     pdf_query := params |}.

(** What [MonthlyPayView] passes to the modal for the selected agent. *)
Definition selectedAgentSheet (period : string)
    (rateAdjustments bonuses : gmap Z Qc) (agentId : Z) : AgentSheetRequest :=
  AgentSheetModal_load period agentId
    (Some (getAdjustment rateAdjustments agentId))
    (Some (getBonus bonuses agentId)).

Definition selectedAgentPdf (apiBase period : string)
    (rateAdjustments bonuses : gmap Z Qc) (agentId : Z) : PdfRequest :=
  handleDownloadPdf apiBase period agentId
    (Some (getAdjustment rateAdjustments agentId))
    (Some (getBonus bonuses agentId)).

(** A query parameter of an agent sheet request, when it is sent. *)
Definition sheetParam (rq : AgentSheetRequest) (key : string) : option Qc :=
  sheet_params rq ≫= (λ params, params !! key).

(** ** Payroll controls *)

(** The payroll record as [payrollAPI.detail] returns it; [None] is the
    [null] that [loadPayrollStatus] stores when the request fails. *)
Record PayrollStatus := {
  status : string;
  is_locked : bool;
  submitted_at : option string;
  paid_at : option string;
}.

(** [(!payrollStatus || !payrollStatus.is_locked) && <Submit Payroll>] *)
Definition offersSubmit (payrollStatus : option PayrollStatus) : bool :=
  match payrollStatus with
  | None => true
  | Some p => negb (is_locked p)
  end.

(** [payrollStatus?.status === 'submitted' && <Mark as Paid>] *)
Definition offersMarkPaid (payrollStatus : option PayrollStatus) : bool :=
  match payrollStatus with
  | None => false
  | Some p => bool_decide (status p = "submitted")
  end.

(** [payrollStatus?.is_locked && <Unlock>] *)
Definition offersUnlock (payrollStatus : option PayrollStatus) : bool :=
  match payrollStatus with
  | None => false
  | Some p => is_locked p
  end.

(** ** Agent pay tab *)

(** The fields of a calculation summary that the header of [AgentPayTab]
    reads; an absent field is [None]. *)
Record CalculationSummary := {
  tier_based_on : option string;
  prior_period : option string;
  note : option string;
}.

(** [a || b] on optional strings: absent and empty are falsy. *)
Definition orText (a b : option string) : option string :=
  match a with
  | Some s => if bool_decide (s = "") then b else a
  | None => b
  end.

(** An optional string in JSX text: nothing is rendered for an absent
    one. *)
Definition textOf (a : option string) : string := default "" a.

(** The first line of [AgentPayTab], statements.tsx lines 695-697:
    [Rates based on {summary.tier_based_on || summary.prior_period}
    written premium]. *)
Definition ratesBasedOn (summary : CalculationSummary) : string :=
  "Rates based on "
  +:+ textOf (orText (tier_based_on summary) (prior_period summary))
  +:+ " written premium".

(** ** Upload and match handlers *)

Record ImportRecord := {
  id : Z;
  filename : string;
  carrier : string;
  period : string;
  import_status : string;
  total_rows : Z;
  matched_rows : Z;
  unmatched_rows : Z;
  total_premium : Qc;
  total_commission : Qc;
  created_at : string;
}.

Record Carrier := { value_ : string; label : string }.

Definition CARRIERS : list Carrier := [
  {| value_ := "national_general"; label := "National General" |};
  {| value_ := "progressive"; label := "Progressive" |};
  {| value_ := "grange"; label := "Grange" |};
  {| value_ := "safeco"; label := "Safeco" |};
  {| value_ := "travelers"; label := "Travelers" |};
  {| value_ := "geico"; label := "Geico" |};
  {| value_ := "first_connect"; label := "First Connect" |};
  {| value_ := "universal"; label := "Universal" |};
  {| value_ := "nbs"; label := "NBS / Bridge Specialty" |};
  {| value_ := "hartford"; label := "Hartford" |};
  {| value_ := "other"; label := "Other" |}
].

(** [s || t] on strings: the empty string is falsy. *)
Definition orString (s t : string) : string :=
  if bool_decide (s = "") then t else s.

(** [CARRIERS.find(c => c.value === x)?.label || x] *)
Definition carrierLabel (x : string) : string :=
  match find (λ c, bool_decide (value_ c = x)) CARRIERS with
  | Some c => orString (label c) x
  | None => x
  end.

(** [imports.find(i => i.carrier === carrier && i.period === period)] *)
Definition findExisting (imports : list ImportRecord) (carrier_ period_ : string)
  : option ImportRecord :=
  find (λ i, bool_decide (carrier i = carrier_) && bool_decide (period i = period_))
       imports.

Definition nl : string := String "010"%char "".

(** What the handlers do to the outside world, in order. *)
Inductive Effect :=
  | Confirm (msg : string)
  | Alert (msg : string)
  | ResetFileInput
  | SetUploading (b : bool)
  | ApiUpload (carrier_ period_ file : string)
  | ApiMatch (importId : Z)
  | LoadImports
  | SetSelectedImport (importId : Z)
  | LoadDetail (importId : Z)
  | SetActionLoading (action : option string).

(** The data of a successful upload response that [handleUpload] reads. *)
Record UploadResponse := {
  upload_id : Z;
  carrier_overridden : bool;
  carrier_detected : string;
  carrier_selected : string;
}.

(** The text of the [confirm] dialog of [handleUpload]. *)
Definition duplicateConfirmText (carrier_ period_ : string)
    (existing : ImportRecord) : string :=
  carrierLabel carrier_ +:+ " has already been uploaded for " +:+ period_
  +:+ " (" +:+ pretty (total_rows existing) +:+ " rows, "
  +:+ pretty (matched_rows existing) +:+ " matched)." +:+ nl +:+ nl
  +:+ "This will create a second import. Continue?".

(** The text of the auto-detection [alert] of [handleUpload]. *)
Definition overrideAlertText (res : UploadResponse) : string :=
  let detectedLabel := carrierLabel (carrier_detected res) in
  let selectedLabel := carrierLabel (carrier_selected res) in
  "Auto-detected: File looks like " +:+ detectedLabel +:+ " (you selected "
  +:+ selectedLabel +:+ "). Used " +:+ detectedLabel +:+ " parser.".

(** The [try]/[catch]/[finally] of [handleUpload], after the duplicate
    check.  [outcome] is what [reconciliationAPI.upload] resolves to: the
    response data, or the [detail] of the error when there is one. *)
Definition uploadAndSelect (carrier_ period_ file : string)
    (outcome : UploadResponse + option string) : list Effect :=
  [SetUploading true; ApiUpload carrier_ period_ file]
  ++ match outcome with
     | inl res =>
         (if carrier_overridden res then [Alert (overrideAlertText res)] else [])
         ++ [LoadImports; SetSelectedImport (upload_id res);
             LoadDetail (upload_id res)]
     | inr detail => [Alert (orString (default "" detail) "Upload failed")]
     end
  ++ [SetUploading false; ResetFileInput].

(** [handleUpload], statements.tsx lines 128-162.  [file] is
    [e.target.files?.[0]]; [confirmed] is the user's answer to the
    [confirm] dialog, read only when the dialog is shown. *)
Definition handleUpload (imports : list ImportRecord) (carrier_ period_ : string)
    (file : option string) (confirmed : bool)
    (outcome : UploadResponse + option string) : list Effect :=
  match file with
  | None => []
  | Some file =>
      match findExisting imports carrier_ period_ with
      | Some existing =>
          Confirm (duplicateConfirmText carrier_ period_ existing)
          :: (if negb confirmed then [ResetFileInput]
              else uploadAndSelect carrier_ period_ file outcome)
      | None => uploadAndSelect carrier_ period_ file outcome
      end
  end.

(** The duplicate warning panel under the upload form, statements.tsx
    lines 287-308: its headline, when it is rendered. *)
Definition duplicateWarningPanel (imports : list ImportRecord)
    (carrier_ period_ : string) : option string :=
  match findExisting imports carrier_ period_ with
  | None => None
  | Some existing =>
      Some (carrierLabel carrier_ +:+ " already uploaded for " +:+ period_)
  end.

(** A field of the match response in a template string: a missing field
    prints as [undefined]. *)
Definition showField (x : option Z) : string :=
  match x with
  | Some n => pretty n
  | None => "undefined"
  end.

(** [x || 0] on an optional count. *)
Definition countOrZero (x : option Z) : Z :=
  match x with
  | Some n => if bool_decide (n = 0%Z) then 0%Z else n
  | None => 0%Z
  end.

(** The message of [handleMatch], built from [res.data]. *)
Definition matchMessage (data : gmap string Z) : string :=
  "Matched: " +:+ showField (data !! "matched") +:+ " total ("
  +:+ pretty (countOrZero (data !! "newly_matched")) +:+ " new), Unmatched: "
  +:+ showField (data !! "unmatched").

(** [handleMatch], statements.tsx lines 177-191. *)
Definition handleMatch (importId : Z) (outcome : gmap string Z + option string)
  : list Effect :=
  [SetActionLoading (Some "match"); ApiMatch importId]
  ++ match outcome with
     | inl data => [Alert (matchMessage data); LoadImports; LoadDetail importId]
     | inr detail => [Alert (orString (default "" detail) "Matching failed")]
     end
  ++ [SetActionLoading None].

(** ** The policy matcher *)

Module Matcher.

(** The fields of a sale the matcher reads. *)
Record Sale := {
  sale_policy_number : string;
  producer : Z;
}.

(** The raw row of a statement line, as the carrier's file gives it. *)
Record RawRow := {
  policy_number : string;
  insured_name : string;
  state : string;
  producer_name : string;
}.

Inductive Confidence := exact | fuzzy | none.

#[global] Instance Confidence_eq_dec : EqDecision Confidence.
Proof. solve_decision. Defined.

(** How a line is matched.  A line has an assigned agent exactly when it
    is matched. *)
Inductive Assignment :=
  | Unassigned
  | Assigned (confidence_ : Confidence) (agent : Z).

Record StatementLine := {
  row : RawRow;
  assignment : Assignment;
}.

Definition is_matched (l : StatementLine) : bool :=
  match assignment l with
  | Unassigned => false
  | Assigned _ _ => true
  end.

Definition assigned_agent_id (l : StatementLine) : option Z :=
  match assignment l with
  | Unassigned => None
  | Assigned _ a => Some a
  end.

Definition match_confidence (l : StatementLine) : Confidence :=
  match assignment l with
  | Unassigned => none
  | Assigned c _ => c
  end.

(** The counts a run returns. *)
Record MatchCounts := {
  matched_total : nat;
  newly_matched : nat;
  unmatched : nat;
}.

(** The number of elements of a list that satisfy a test. *)
Definition count {A} (p : A → bool) (l : list A) : nat :=
  length (filter (λ x, p x = true) l).

Section Run.

(** The normalisation of case and white space in policy numbers, the
    similarity of a row and a sale, and the minimum similarity. *)
Variable normalize : string → string.
Variable similarity : RawRow → Sale → Qc.
Variable threshold : Qc.

Definition exact_hit (sales : list Sale) (r : RawRow) : option Sale :=
  find (λ s, bool_decide (normalize (sale_policy_number s)
                          = normalize (policy_number r))) sales.

Definition fuzzy_hit (sales : list Sale) (r : RawRow) : option Sale :=
  find (λ s, bool_decide (threshold ≤ similarity r s)) sales.

(** Modelled from the spec: the server's policy matcher is not in the
    sources; section 4.2: a line matched with exact confidence is kept;
    otherwise an exact hit on the normalised policy number gives [exact]
    and assigns the sale's producer; without one, a sale whose similarity
    reaches the threshold gives [fuzzy]; without either the line is
    unmatched with confidence [none]. *)
Definition match_line (sales : list Sale) (l : StatementLine)
  : StatementLine :=
  if bool_decide (match_confidence l = exact) then l
  else
    match exact_hit sales (row l) with
    | Some s => {| row := row l; assignment := Assigned exact (producer s) |}
    | None =>
        match fuzzy_hit sales (row l) with
        | Some s =>
            {| row := row l; assignment := Assigned fuzzy (producer s) |}
        | None => {| row := row l; assignment := Unassigned |}
        end
    end.

(** Modelled from the spec: section 4.2, step 4: an operator assigns a
    line to a sale, which counts as [exact]. *)
Definition assign (s : Sale) (l : StatementLine) : StatementLine :=
  {| row := row l; assignment := Assigned exact (producer s) |}.

(** A line that was not matched before the run and is matched after it. *)
Definition becomes_matched (sales : list Sale) (l : StatementLine) : bool :=
  negb (is_matched l) && is_matched (match_line sales l).

(** Modelled from the spec: section 4.2: a run resolves the lines of an
    import and returns the updated match counts as [matched_total],
    [newly_matched] and [unmatched]. *)
Definition run (sales : list Sale) (lines : list StatementLine)
  : list StatementLine * MatchCounts :=
  let lines' := match_line sales <$> lines in
  (lines',
   {| matched_total := count is_matched lines';
      newly_matched := count (becomes_matched sales) lines;
      unmatched := count (λ l, negb (is_matched l)) lines' |}).

End Run.

End Matcher.

(** Modelled from the spec: the server's match entrypoint is not in the
    sources; section 6: it returns the counts of the run as [matched],
    [newly_matched] and [unmatched], the fields [handleMatch] reads. *)
Definition matchResponse (c : Matcher.MatchCounts) : gmap string Z :=
  {[ "matched" := Z.of_nat (Matcher.matched_total c);
     "newly_matched" := Z.of_nat (Matcher.newly_matched c);
     "unmatched" := Z.of_nat (Matcher.unmatched c) ]}.

(** ** The payroll ledger *)

Module Payroll.

Inductive Status := Draft | Submitted | Paid | Unlocked.

Inductive CommissionStatus := Pending | CommissionPaid.

#[global] Instance Status_eq_dec : EqDecision Status.
Proof. solve_decision. Defined.

#[global] Instance CommissionStatus_eq_dec : EqDecision CommissionStatus.
Proof. solve_decision. Defined.

(** The totals a calculation run hands to the ledger. *)
Record Calculation := {
  calc_total_agents : Z;
  calc_total_premium : Qc;
  calc_total_agent_pay : Qc;
}.

Record PayrollRecord := {
  status : Status;
  is_locked : bool;
  submitted_at : option Z;
  paid_at : option Z;
  total_agents : Z;
  total_premium : Qc;
  total_agent_pay : Qc;
  agent_overrides : gmap Z Override;
}.

(** The persistent state the payroll entrypoints act on: one record per
    period, and the commission status of every sale. *)
Record Ledger := {
  records : gmap string PayrollRecord;
  sales : gmap Z CommissionStatus;
}.

Inductive Error := PayrollStateConflict (reason : string).

Inductive Response := Ok | Rejected (e : Error).

Definition reason (e : Error) : string :=
  match e with PayrollStateConflict r => r end.

Definition locked (L : Ledger) (period : string) : bool :=
  match records L !! period with
  | Some r => is_locked r
  | None => false
  end.

Section Transitions.

(** The commission calculator run for a period with the given overrides,
    and the sales whose matched lines contribute to a period's run. *)
Variable calculate : string → gmap Z Override → Calculation.
Variable contributing : string → gset Z.

(** Modelled from the spec: the server's [submit(period, agent_overrides)]
    is not in the sources; section 4.5: it requires the period not to be
    locked, persists the calculator's totals and the override map, sets
    the status to submitted, locks, and records [submitted_at]. *)
Definition submit (period : string) (overrides : gmap Z Override) (now : Z)
    (L : Ledger) : Response * Ledger :=
  if locked L period
  then (Rejected (PayrollStateConflict
          "payroll for this period is already locked; unlock it first"), L)
  else
    let c := calculate period overrides in
    let r := {| status := Submitted;
                is_locked := true;
                submitted_at := Some now;
                paid_at := None;
                total_agents := calc_total_agents c;
                total_premium := calc_total_premium c;
                total_agent_pay := calc_total_agent_pay c;
                agent_overrides := overrides |} in
    (Ok, {| records := <[period := r]> (records L); sales := sales L |}).

(** Modelled from the spec: the server's [mark_paid(period)] is not in
    the sources; section 4.5: it requires status submitted, sets the
    status to paid, records [paid_at], and sets every contributing sale
    to commission paid. *)
Definition mark_paid (period : string) (now : Z) (L : Ledger)
  : Response * Ledger :=
  match records L !! period with
  | Some r =>
      if bool_decide (status r = Submitted)
      then
        let r' := {| status := Paid;
                     is_locked := is_locked r;
                     submitted_at := submitted_at r;
                     paid_at := Some now;
                     total_agents := total_agents r;
                     total_premium := total_premium r;
                     total_agent_pay := total_agent_pay r;
                     agent_overrides := agent_overrides r |} in
        (Ok, {| records := <[period := r']> (records L);
                sales := map_imap (λ sale st,
                           Some (if bool_decide (sale ∈ contributing period)
                                 then CommissionPaid else st)) (sales L) |})
      else (Rejected (PayrollStateConflict
              "payroll for this period is not in the submitted state"), L)
  | None => (Rejected (PayrollStateConflict
               "payroll for this period was never submitted"), L)
  end.

(** Modelled from the spec: the server's [unlock(period)] is not in the
    sources; section 4.5: it requires status submitted or paid, clears
    the lock and [submitted_at], keeps the record, and does not revert
    the sales. *)
Definition unlock (period : string) (L : Ledger) : Response * Ledger :=
  match records L !! period with
  | Some r =>
      if bool_decide (status r = Submitted) || bool_decide (status r = Paid)
      then
        let r' := {| status := Unlocked;
                     is_locked := false;
                     submitted_at := None;
                     paid_at := paid_at r;
                     total_agents := total_agents r;
                     total_premium := total_premium r;
                     total_agent_pay := total_agent_pay r;
                     agent_overrides := agent_overrides r |} in
        (Ok, {| records := <[period := r']> (records L); sales := sales L |})
      else (Rejected (PayrollStateConflict
              "payroll for this period is neither submitted nor paid"), L)
  | None => (Rejected (PayrollStateConflict
               "there is no payroll record for this period"), L)
  end.

(** The calls clients make. *)
Inductive Request :=
  | Submit (period : string) (overrides : gmap Z Override) (now : Z)
  | MarkPaid (period : string) (now : Z)
  | Unlock (period : string).

Definition handle (rq : Request) (L : Ledger) : Response * Ledger :=
  match rq with
  | Submit period overrides now => submit period overrides now L
  | MarkPaid period now => mark_paid period now L
  | Unlock period => unlock period L
  end.

End Transitions.

Definition status_name (s : Status) : string :=
  match s with
  | Draft => "draft"
  | Submitted => "submitted"
  | Paid => "paid"
  | Unlocked => "unlocked"
  end.

End Payroll.

(** ** Concurrent submits *)

Module Concurrent.
Import Payroll.

(** A submit call in flight. *)
Record Call := {
  call_period : string;
  call_overrides : gmap Z Override;
  call_now : Z;
}.

(** Where a call is: it has not read the ledger yet, it has read the
    period as not locked and has not written yet, or it has returned. *)
Inductive Phase :=
  | Arrived
  | Checked
  | Finished (resp : Response).

(** The ledger and the two calls in flight. *)
Record System := {
  ledger : Ledger;
  first : Phase;
  second : Phase;
}.

Section Interleaving.

Variable calculate : string → gmap Z Override → Calculation.

(** The write of a submit that does not look at the lock again. *)
Definition write (c : Call) (L : Ledger) : Ledger :=
  let k := calculate (call_period c) (call_overrides c) in
  {| records :=
       <[call_period c :=
           {| status := Submitted;
              is_locked := true;
              submitted_at := Some (call_now c);
              paid_at := None;
              total_agents := calc_total_agents k;
              total_premium := calc_total_premium k;
              total_agent_pay := calc_total_agent_pay k;
              agent_overrides := call_overrides c |}]> (records L);
     sales := sales L |}.

(** Modelled from the spec: the server's handling of concurrent submits
    is not in the sources; section 5: a submit reads the lock of the
    period and later writes its snapshot, and the write is guarded by a
    check on [is_locked] within the same transaction.  One step of a call:
    the read, or the write.  With [guarded] the write is the transition
    [submit], which checks the lock again; without it the write is
    unconditional. *)
Definition step (guarded : bool) (c : Call) (ph : Phase) (L : Ledger)
  : Phase * Ledger :=
  match ph with
  | Arrived =>
      if locked L (call_period c)
      then (Finished (Rejected (PayrollStateConflict
              "payroll for this period is already locked; unlock it first")),
            L)
      else (Checked, L)
  | Checked =>
      if guarded
      then
        let '(resp, L') :=
          submit calculate (call_period c) (call_overrides c) (call_now c) L in
        (Finished resp, L')
      else (Finished Ok, write c L)
  | Finished resp => (Finished resp, L)
  end.

(** The scheduler lets one of the two calls take its next step: [false]
    is the first call, [true] the second. *)
Definition advance (guarded : bool) (c1 c2 : Call) (S : System)
    (who : bool) : System :=
  if who
  then let '(ph, L) := step guarded c2 (second S) (ledger S) in
       {| ledger := L; first := first S; second := ph |}
  else let '(ph, L) := step guarded c1 (first S) (ledger S) in
       {| ledger := L; first := ph; second := second S |}.

(** The system after the steps of a schedule. *)
Definition play (guarded : bool) (c1 c2 : Call) (schedule : list bool)
    (S : System) : System :=
  foldl (advance guarded c1 c2) S schedule.

Definition initial (L : Ledger) : System :=
  {| ledger := L; first := Arrived; second := Arrived |}.

Definition conflict : Response :=
  Rejected (PayrollStateConflict
    "payroll for this period is already locked; unlock it first").

(** What holds of the guarded system at every moment, for two calls on
    one period that was not locked in [L0]: as long as no call has
    succeeded the ledger is [L0] and no call has been rejected; once one
    has succeeded the ledger is the one that call wrote and the other
    call has not succeeded. *)
Definition consistent (c1 c2 : Call) (L0 : Ledger) (S : System) : Prop :=
  match first S, second S with
  | Finished Ok, Finished Ok => False
  | Finished Ok, other =>
      ledger S = write c1 L0 ∧ (other = Arrived ∨ other = Checked
                                ∨ other = Finished conflict)
  | other, Finished Ok =>
      ledger S = write c2 L0 ∧ (other = Arrived ∨ other = Checked
                                ∨ other = Finished conflict)
  | Finished (Rejected _), _ | _, Finished (Rejected _) => False
  | _, _ => ledger S = L0
  end.

(** How far a call is. *)
Definition progress (ph : Phase) : nat :=
  match ph with
  | Arrived => 0
  | Checked => 1
  | Finished _ => 2
  end.

End Interleaving.

End Concurrent.

(** ** The tier resolver *)

Module TierResolver.

Record Period := { year : Z; month : Z }.

#[global] Instance Period_eq_dec : EqDecision Period.
Proof. solve_decision. Defined.

Definition valid (p : Period) : Prop := (1 ≤ month p ≤ 12)%Z.

(** The month before [p]; January follows December of the year before. *)
Definition prior_period (p : Period) : Period :=
  if bool_decide (month p = 1%Z)
  then {| year := year p - 1; month := 12 |}
  else {| year := year p; month := month p - 1 |}.

(** Months counted from year 0. *)
Definition month_index (p : Period) : Z := (12 * year p + (month p - 1))%Z.

Record CommissionTier := {
  tier_level : Z;
  min_written_premium : Qc;
  max_written_premium : option Qc;
  commission_rate : Qc;
}.

(** Ranges are [[min, max)]; the top tier includes its maximum when it
    has one. *)
Definition in_range (top : bool) (t : CommissionTier) (premium : Qc) : bool :=
  bool_decide (min_written_premium t ≤ premium)
  && match max_written_premium t with
     | None => true
     | Some m => if top then bool_decide (premium ≤ m)
                 else bool_decide (premium < m)
     end.

(** Look a premium up in the tiers, ordered by level; the last tier is
    the top one. *)
Fixpoint lookup_tier (tiers : list CommissionTier) (premium : Qc)
  : option CommissionTier :=
  match tiers with
  | [] => None
  | t :: rest =>
      if in_range (bool_decide (rest = [])) t premium then Some t
      else lookup_tier rest premium
  end.

(** Modelled from the spec: the server's tier resolver is not in the
    sources; section 4.3: the tier for an agent and a target period is
    looked up from the agent's total written premium in the month before
    the target period.  [None] is a tier resolution gap. *)
Definition resolve_tier (tiers : list CommissionTier)
    (written_premium : Z → Period → Qc) (agent : Z) (target : Period)
  : option CommissionTier :=
  lookup_tier tiers (written_premium agent (prior_period target)).

(** Modelled from the spec: section 4.3: given an agent and a target
    period, the resolver returns the commission rate in effect, the rate
    of the resolved tier. *)
Definition resolve (tiers : list CommissionTier)
    (written_premium : Z → Period → Qc) (agent : Z) (target : Period)
  : option Qc :=
  commission_rate <$> resolve_tier tiers written_premium agent target.

(** A premium lies in the half-open range of a tier. *)
Definition within (t : CommissionTier) (premium : Qc) : Prop :=
  min_written_premium t ≤ premium
  ∧ ∀ m, max_written_premium t = Some m → premium < m.

(** The written premium table with one entry replaced. *)
Definition with_premium (written_premium : Z → Period → Qc)
    (agent : Z) (p : Period) (premium : Qc) : Z → Period → Qc :=
  λ a q, if bool_decide (a = agent ∧ q = p) then premium
         else written_premium a q.

Definition Z2Qc (n : Z) : Qc := Qc_of_Z n.

(** The three default tiers of the README. *)
Definition default_tiers : list CommissionTier := [
  {| tier_level := 1; min_written_premium := 0;
     max_written_premium := Some (Z2Qc 50000);
     commission_rate := Q2Qc (10 # 100) |};
  {| tier_level := 2; min_written_premium := Z2Qc 50000;
     max_written_premium := Some (Z2Qc 100000);
     commission_rate := Q2Qc (125 # 1000) |};
  {| tier_level := 3; min_written_premium := Z2Qc 100000;
     max_written_premium := None;
     commission_rate := Q2Qc (15 # 100) |}
].

End TierResolver.

(** ** The commission calculator *)

Module Calculator.

(** The fields of a matched statement line the calculator reads. *)
Record StatementLine := {
  premium_amount : Qc;
  agent_commission : option Qc;
}.

(** The agent's commission on one line: the statement's own split when it
    dictates one, the resolved rate on the signed premium otherwise. *)
Definition line_commission (rate : Qc) (l : StatementLine) : Qc :=
  match agent_commission l with
  | Some c => c
  | None => premium_amount l * rate
  end.

Definition is_chargeback (l : StatementLine) : bool :=
  bool_decide (premium_amount l < 0).

Definition sumQc (xs : list Qc) : Qc := foldr Qcplus 0 xs.

Record Totals := {
  line_count : nat;
  total_premium : Qc;
  total_agent_commission : Qc;
  chargeback_count : nat;
  chargeback_premium : Qc;
}.

(** Modelled from the spec: the server's commission calculator is not in
    the sources; section 4.4: premium and commission are summed per line
    with their signs, lines with negative premium subtract from the
    running total, the total is not floored, and chargebacks are counted
    separately although they are already netted into the total. *)
Definition compute_totals (rate : Qc) (lines : list StatementLine) : Totals :=
  {| line_count := length lines;
     total_premium := sumQc (premium_amount <$> lines);
     total_agent_commission := sumQc (line_commission rate <$> lines);
     chargeback_count := length (filter (λ l, is_chargeback l = true) lines);
     chargeback_premium :=
       sumQc (premium_amount <$> filter (λ l, is_chargeback l = true) lines) |}.

Definition plain (premium : Z) : StatementLine :=
  {| premium_amount := Qc_of_Z premium; agent_commission := None |}.

(** What the calculator reports for one agent: the tier and the rate it
    used, the premium figure the tier decision was based on, and the
    totals of the agent's lines. *)
Record AgentCommissionSummary := {
  tier_level : Z;
  commission_rate : Qc;
  tier_premium : Qc;
  totals : Totals;
}.

(** Modelled from the spec: the server's commission calculator is not in
    the sources; section 4.4: for each agent it resolves the tier and
    rate via the tier resolver using the prior-month premium, pays the
    agent's lines at that rate, and reports the premium figure the tier
    decision was based on; section 7: an agent with no applicable tier is
    left out of the summary. *)
Definition agent_summary (tiers : list TierResolver.CommissionTier)
    (written_premium : Z → TierResolver.Period → Qc)
    (agent : Z) (target : TierResolver.Period) (lines : list StatementLine)
  : option AgentCommissionSummary :=
  match TierResolver.resolve_tier tiers written_premium agent target with
  | Some t =>
      Some {| tier_level := TierResolver.tier_level t;
              commission_rate := TierResolver.commission_rate t;
              tier_premium :=
                written_premium agent (TierResolver.prior_period target);
              totals := compute_totals (TierResolver.commission_rate t) lines |}
  | None => None
  end.

End Calculator.

(** Modelled from the spec: the server's monthly pay response is not in
    the sources; section 3: an agent summary carries the calculator's
    [total_agent_commission] and the resolved [commission_rate], which are
    the fields the monthly pay view reads. *)
Definition summaryOf (agent : Z) (rate : Qc)
    (lines : list Calculator.StatementLine) : AgentSummary :=
  {| agent_id := agent;
     net_agent_commission := Undefined;
     total_agent_commission :=
       Number (Calculator.total_agent_commission
                 (Calculator.compute_totals rate lines));
     commission_rate := Number rate |}.


(** ** Concrete data used in the examples *)

Definition agent7 : AgentSummary :=
  {| agent_id := 7;
     net_agent_commission := Undefined;
     total_agent_commission := Number (Qc_of_Z 120);
     commission_rate := Number (Q2Qc (1 # 10)) |}.

Definition halfPointUp : gmap Z Qc := setAdjustment ∅ 7 (Q2Qc (5 # 1000)).

(** An agent and an override whose values are binary fractions. *)
Definition agentEighth : AgentSummary :=
  {| agent_id := 7;
     net_agent_commission := Undefined;
     total_agent_commission := Number (Qc_of_Z 128);
     commission_rate := Number (Q2Qc (1 # 8)) |}.

Definition eighthUp : gmap Z Qc := setAdjustment ∅ 7 (Q2Qc (1 # 8)).

Definition agentNoRate : AgentSummary :=
  {| agent_id := 7;
     net_agent_commission := Undefined;
     total_agent_commission := Number (Qc_of_Z 120);
     commission_rate := Number 0 |}.


(** Modelled from the spec: the server's [detail(period)] is not in the
    sources; section 6: it returns the payroll record of the period, which
    the payroll controls read as their [payrollStatus]; without a record
    the request fails and the controls keep [null]. *)
Definition payrollDetail (L : Payroll.Ledger) (period_ : string)
  : option PayrollStatus :=
  match Payroll.records L !! period_ with
  | Some r =>
      Some {| status := Payroll.status_name (Payroll.status r);
              is_locked := Payroll.is_locked r;
              submitted_at := pretty <$> Payroll.submitted_at r;
              paid_at := pretty <$> Payroll.paid_at r |}
  | None => None
  end.

Definition emptyLedger : Payroll.Ledger :=
  {| Payroll.records := ∅; Payroll.sales := ∅ |}.

Definition halfPointOverride : gmap Z Override :=
  {[ 7%Z := {| rate_adjustment := Q2Qc (5 # 1000); bonus := 0 |} ]}.

(** Two submits for January on the empty ledger: both read the lock, the
    second writes, then the first. *)
Definition raceResult : Concurrent.System :=
  Concurrent.play (λ _ _, Payroll.Build_Calculation 0 0 0) true
    (Concurrent.Build_Call "2024-01" halfPointOverride 20)
    (Concurrent.Build_Call "2024-01" ∅ 10)
    [false; true; true; false] (Concurrent.initial emptyLedger).

(** The text [handleMatch] shows for the three counts. *)
Definition countsText (matched newly_matched unmatched : Z) : string :=
  "Matched: " +:+ pretty matched +:+ " total (" +:+ pretty newly_matched
  +:+ " new), Unmatched: " +:+ pretty unmatched.

(** A match response with the field names [matched_total],
    [newly_matched], [unmatched]. *)
Definition matchedTotalShape (m n u : Z) : gmap string Z :=
  {[ "matched_total" := m; "newly_matched" := n; "unmatched" := u ]}.

(** A match response with the field names [matched], [newly_matched],
    [unmatched]. *)
Definition matchedShape (m n u : Z) : gmap string Z :=
  {[ "matched" := m; "newly_matched" := n; "unmatched" := u ]}.

(** Two sales and three fresh lines: one with the policy number of a
    sale, one whose insured is known under another policy number, and
    one that nothing resembles. *)
Definition knownSales : list Matcher.Sale :=
  [ {| Matcher.sale_policy_number := "P-100"; Matcher.producer := 7 |};
    {| Matcher.sale_policy_number := "P-200"; Matcher.producer := 8 |} ].

Definition sameInsured (r : Matcher.RawRow) (s : Matcher.Sale) : Qc :=
  if bool_decide (Matcher.insured_name r = "Ann Lee"
                  ∧ Matcher.sale_policy_number s = "P-200")
  then 1 else 0.

Definition freshLine (policy insured : string) : Matcher.StatementLine :=
  {| Matcher.row :=
       {| Matcher.policy_number := policy; Matcher.insured_name := insured;
          Matcher.state := "OH"; Matcher.producer_name := "" |};
     Matcher.assignment := Matcher.Unassigned |}.

Definition freshLines : list Matcher.StatementLine :=
  [freshLine "P-100" "Bo Roy"; freshLine "X-9" "Ann Lee";
   freshLine "X-7" "Cy Poe"].

Definition januaryGrange : ImportRecord :=
  {| id := 3; filename := "grange-jan.csv"; carrier := "grange";
     period := "2024-01"; import_status := "processed";
     total_rows := 42; matched_rows := 40; unmatched_rows := 2;
     total_premium := Qc_of_Z 52000; total_commission := Qc_of_Z 6100;
     created_at := "2024-02-03T10:00:00" |}.

Definition detectedProgressive : UploadResponse :=
  {| upload_id := 9; carrier_overridden := true;
     carrier_detected := "progressive"; carrier_selected := "grange" |}.

(** The synthetic lines with premiums [+1000, +500, -300], and lines whose
    chargeback exceeds the new production. *)
Definition mixedLines : list Calculator.StatementLine :=
  [Calculator.plain 1000; Calculator.plain 500; Calculator.plain (-300)].

Definition positiveLines : list Calculator.StatementLine :=
  [Calculator.plain 1000; Calculator.plain 500].

Definition exceededLines : list Calculator.StatementLine :=
  [Calculator.plain 500; Calculator.plain (-1000)].

Definition january2024 : TierResolver.Period :=
  {| TierResolver.year := 2024; TierResolver.month := 1 |}.

(** An agent who wrote 20000 in December and 120000 in January. *)
Definition decemberTable : Z → TierResolver.Period → Qc :=
  λ _ p, if bool_decide (p = january2024)
         then Qc_of_Z 120000 else Qc_of_Z 20000.

Definition decemberSummary : Calculator.AgentCommissionSummary :=
  {| Calculator.tier_level := 1;
     Calculator.commission_rate := Q2Qc (10 # 100);
     Calculator.tier_premium := Qc_of_Z 20000;
     Calculator.totals :=
       Calculator.compute_totals (Q2Qc (10 # 100)) positiveLines |}.

(** ** Monthly pay view: the badges under the net agent pay *)



(** ** Upload form: carrier select and period checklist *)

(** The text of one option of the carrier select, lines 253-260. *)
Definition carrierOption (imports : list ImportRecord) (period_ : string)
    (c : Carrier) : string :=
  let existing := findExisting imports (value_ c) period_ in
  match existing with Some _ => "✓  " | None => "    " end +:+ label c
  +:+ match existing with Some _ => " (uploaded)" | None => "" end.

(** [imports.filter(i => i.period === period).length > 0], line 311. *)
Definition checklistShown (imports : list ImportRecord) (period_ : string)
  : bool :=
  bool_decide (0 < length (filter (λ i, period i = period_) imports))%nat.

(** [CARRIERS.filter(c => c.value !== 'other' && c.value !== 'hartford')],
    line 317. *)
Definition checklistCarriers : list Carrier :=
  filter (λ c, value_ c ≠ "other" ∧ value_ c ≠ "hartford") CARRIERS.

(** The chips of the checklist: the carrier's label, and whether it is
    shown as uploaded, lines 317-333. *)
Definition checklistChips (imports : list ImportRecord) (period_ : string)
  : list (string * bool) :=
  (λ c, (label c,
         bool_decide (is_Some (findExisting imports (value_ c) period_))))
  <$> checklistCarriers.

(** ** Text helpers *)

Module Text.

(** [s.startsWith(pattern)] *)
Fixpoint startsWith (s pattern : string) : bool :=
  match pattern, s with
  | EmptyString, _ => true
  | String _ _, EmptyString => false
  | String p pattern', String a s' =>
      bool_decide (a = p) && startsWith s' pattern'
  end.

(** [s.includes(pattern)]: the pattern occurs at some position of [s]. *)
Fixpoint includes (s pattern : string) : bool :=
  startsWith s pattern
  || match s with
     | EmptyString => false
     | String _ s' => includes s' pattern
     end.

(** [s.replace(c, d)] for one-character strings [c] and [d]: only the
    first occurrence is replaced. *)
Fixpoint replaceFirst (c d : ascii) (s : string) : string :=
  match s with
  | EmptyString => EmptyString
  | String a s' =>
      if bool_decide (a = c) then String d s'
      else String a (replaceFirst c d s')
  end.

(** [s.replace(/c/g, d)] for one-character [c] and [d]. *)
Fixpoint replaceAll (c d : ascii) (s : string) : string :=
  match s with
  | EmptyString => EmptyString
  | String a s' =>
      String (if bool_decide (a = c) then d else a) (replaceAll c d s')
  end.

Definition between (lo hi a : ascii) : bool :=
  (nat_of_ascii lo <=? nat_of_ascii a)%nat
  && (nat_of_ascii a <=? nat_of_ascii hi)%nat.

(** The class [\w] of a regular expression without the [u] flag. *)
Definition isWordChar (a : ascii) : bool :=
  between "a" "z" a || between "A" "Z" a || between "0" "9" a
  || bool_decide (a = "_"%char).

(** [c.toUpperCase()] for a character [c] of the class [\w]. *)
Definition upperWordChar (a : ascii) : ascii :=
  if between "a" "z" a then ascii_of_nat (nat_of_ascii a - 32) else a.

(** [s.replace(/\b\w/g, c => c.toUpperCase())]: a word character is
    replaced when the character before it is not a word character.
    [afterWord] says whether the previous character was one. *)
Fixpoint capitalizeWords (afterWord : bool) (s : string) : string :=
  match s with
  | EmptyString => EmptyString
  | String a s' =>
      String (if isWordChar a && negb afterWord then upperWordChar a else a)
             (capitalizeWords (isWordChar a) s')
  end.

(** The number of occurrences of a character. *)
Fixpoint occurrences (c : ascii) (s : string) : nat :=
  match s with
  | EmptyString => 0
  | String a s' => (if bool_decide (a = c) then 1 else 0) + occurrences c s'
  end.

End Text.

(** [carrier.replace('_', ' ').replace(/\b\w/g, c => c.toUpperCase())],
    the carrier name in the import list, the detail header and the monthly
    pay view (statements.tsx lines 407, 488 and 850). *)
Definition displayCarrier (carrier_ : string) : string :=
  Text.capitalizeWords false (Text.replaceFirst "_" " " carrier_).

(** [`Commission_${agentName.replace(/ /g, '_')}_${period}.pdf`], the
    name of the downloaded PDF, line 1253. *)
Definition pdfFileName (agentName period_ : string) : string :=
  "Commission_" +:+ Text.replaceAll " " "_" agentName +:+ "_" +:+ period_
  +:+ ".pdf".

(** An agent whose chargebacks cancel the net commission exactly, and a
    negative bonus. *)
Definition nettedToZero : AgentSummary :=
  {| agent_id := 7;
     net_agent_commission := Number 0;
     total_agent_commission := Number (Qc_of_Z 90);
     commission_rate := Number (Q2Qc (1 # 10)) |}.


Definition januaryHartford : ImportRecord :=
  {| id := 4; filename := "hartford-jan.pdf"; carrier := "hartford";
     period := "2024-01"; import_status := "processed";
     total_rows := 12; matched_rows := 12; unmatched_rows := 0;
     total_premium := Qc_of_Z 9000; total_commission := Qc_of_Z 900;
     created_at := "2024-02-04T09:00:00" |}.

(** ** Components that compare lower-cased text *)

(** [String.prototype.toLowerCase] is a parameter of this section. *)
Section LowerCase.

Variable toLowerCase : string → string.

(** The colours of [TransTypeBadge]. *)
Inductive BadgeColor := Slate | Green | Blue | Red | Yellow.

(** The colour of [TransTypeBadge], statements.tsx lines 776-784; [None]
    is the dash rendered for a missing or empty type. *)
Definition transTypeColor (type : option string) : option BadgeColor :=
  match type with
  | None => None
  | Some type =>
      if bool_decide (type = "") then None
      else
        let t := toLowerCase type in
        Some (if Text.includes t "new" then Green
              else if Text.includes t "renew" then Blue
              else if Text.includes t "cancel" then Red
              else if Text.includes t "endors" || Text.includes t "revis"
                   then Yellow
              else Slate)
  end.

(** The fields of a statement line that the search of [LinesTable]
    reads; [None] is a missing or null field. *)
Record TableLine := {
  line_id : Z;
  policy_number : option string;
  insured_name : option string;
  producer_name : option string;
}.

(** [field?.toLowerCase().includes(search.toLowerCase())] *)
Definition fieldIncludes (search : string) (field : option string) : bool :=
  match field with
  | Some s => Text.includes (toLowerCase s) (toLowerCase search)
  | None => false
  end.

(** The rows of [LinesTable], lines 601-606. *)
Definition filteredLines (lines : list TableLine) (search : string)
  : list TableLine :=
  List.filter (λ l, fieldIncludes search (policy_number l)
                    || fieldIncludes search (insured_name l)
                    || fieldIncludes search (producer_name l)) lines.

(** The user of the auth context, as far as the page reads it. *)
Record User := { role : option string }.

(** Where the effect of the page sends a visitor, lines 113-117. *)
Inductive Entry := Stay | GoHome | GoDashboard | LoadTheImports.

(** [user.role?.toLowerCase() !== 'admin'] *)
Definition notAdmin (u : User) : bool :=
  match role u with
  | Some r => negb (bool_decide (toLowerCase r = "admin"))
  | None => true
  end.

Definition onEnter (user : option User) (loading : bool) : Entry :=
  match user with
  | None => if negb loading then GoHome else Stay
  | Some u => if notAdmin u then GoDashboard else LoadTheImports
  end.

(** [if (loading || !user || user.role?.toLowerCase() !== 'admin')
    return null], line 223: whether the page is rendered. *)
Definition rendersPage (user : option User) (loading : bool) : bool :=
  match user with
  | None => false
  | Some u => negb loading && negb (notAdmin u)
  end.

End LowerCase.

(** [lines[0]?.producer_name && <Producer column>], lines 632 and 660:
    the column is decided by the first line of the unfiltered list. *)
Definition showsProducerColumn (lines : list TableLine) : bool :=
  match lines with
  | [] => false
  | first :: _ =>
      match producer_name first with
      | Some s => negb (bool_decide (s = ""))
      | None => false
      end
  end.

(** Lower case for unaccented Latin letters, for the examples. *)
Definition lowerLatin (a : ascii) : ascii :=
  if Text.between "A" "Z" a then ascii_of_nat (nat_of_ascii a + 32) else a.

Fixpoint toLowerLatin (s : string) : string :=
  match s with
  | EmptyString => EmptyString
  | String a s' => String (lowerLatin a) (toLowerLatin s')
  end.

(** ** Summary tab *)

Module SummaryTab.

Record TypeSummary := {
  count : Z;
  premium : Qc;
  commission : Qc;
}.

(** [Math.abs] on a finite number. *)
Definition abs (q : Qc) : Qc := if bool_decide (q < 0) then - q else q.

(** An entry of [Object.entries(data.type_summary)]. *)
Definition Row : Type := string * TypeSummary.

Definition weight (r : Row) : Qc := abs (premium r.2).

(** Insertion of a row in front of the first row that does not weigh
    more. *)
Fixpoint insertRow (x : Row) (rows : list Row) : list Row :=
  match rows with
  | [] => [x]
  | y :: rows' =>
      if bool_decide (weight x < weight y) then y :: insertRow x rows'
      else x :: y :: rows'
  end.

(** [entries.sort(([, a], [, b]) => Math.abs(b.premium) -
    Math.abs(a.premium))], lines 577-578: the stable sort by decreasing
    absolute premium. *)
Definition sortRows (entries : list Row) : list Row :=
  foldr insertRow [] entries.

End SummaryTab.

(** ** Commissions page *)

Module CommissionsPage.

Section Totals.

(** [parseFloat] is a parameter of this section. *)
Variable parseFloat : string → number.

Record Commission := {
  commission_period : string;
  commission_amount : string;
}.

(** [commissions.reduce((sum, c) => sum + parseFloat(c.commission_amount),
    0)] *)
Definition total (commissions : list Commission) : number :=
  foldl (λ sum c, add sum (parseFloat (commission_amount c))) (Num 0)
        commissions.

(** [commissions.filter((c) => c.period === currentPeriod)] and its
    total. *)
Definition currentMonthCommissions (currentPeriod : string)
    (commissions : list Commission) : list Commission :=
  List.filter (λ c, bool_decide (commission_period c = currentPeriod))
              commissions.

Definition currentMonthTotal (currentPeriod : string)
    (commissions : list Commission) : number :=
  total (currentMonthCommissions currentPeriod commissions).

End Totals.

End CommissionsPage.

Definition noTextLine : TableLine :=
  {| line_id := 1; policy_number := None; insured_name := None;
     producer_name := None |}.

Definition namedLine : TableLine :=
  {| line_id := 2; policy_number := None; insured_name := Some "Ada Byron";
     producer_name := None |}.

Definition chargebackSummary : SummaryTab.TypeSummary :=
  {| SummaryTab.count := 3; SummaryTab.premium := Qc_of_Z (-4000);
     SummaryTab.commission := Qc_of_Z (-400) |}.

Definition newBusinessSummary : SummaryTab.TypeSummary :=
  {| SummaryTab.count := 5; SummaryTab.premium := Qc_of_Z 4000;
     SummaryTab.commission := Qc_of_Z 400 |}.

Definition paidCommission : CommissionsPage.Commission :=
  {| CommissionsPage.commission_period := "2024-01";
     CommissionsPage.commission_amount := "12.50" |}.

Definition brokenCommission : CommissionsPage.Commission :=
  {| CommissionsPage.commission_period := "2024-01";
     CommissionsPage.commission_amount := "" |}.

(** ** The page state and its handlers *)

Module Page.

(** What a handler shows or sends, in order. *)
Inductive Event :=
  | Asked (msg : string)
  | Alerted (msg : string)
  | Listed
  | Got (importId : Z)
  | Matched (importId : Z)
  | Calculated (importId : Z)
  | Deleted (importId : Z).

Inductive Tab := TabMatched | TabUnmatched | TabSummary | TabAgents.

Section Handlers.

(** The data of [reconciliationAPI.get] and of
    [reconciliationAPI.calculate]. *)
Variables ReconciliationData SummaryData : Type.

Record State := {
  imports : list ImportRecord;
  selectedImport : option Z;
  reconciliation : option ReconciliationData;
  agentSummary : option SummaryData;
  loadingDetail : bool;
  activeTab : Tab;
  actionLoading : option string;
}.

Definition setImports (v : list ImportRecord) (s : State) : State :=
  {| imports := v; selectedImport := selectedImport s;
     reconciliation := reconciliation s; agentSummary := agentSummary s;
     loadingDetail := loadingDetail s; activeTab := activeTab s;
     actionLoading := actionLoading s |}.

Definition setSelectedImport (v : option Z) (s : State) : State :=
  {| imports := imports s; selectedImport := v;
     reconciliation := reconciliation s; agentSummary := agentSummary s;
     loadingDetail := loadingDetail s; activeTab := activeTab s;
     actionLoading := actionLoading s |}.

Definition setReconciliation (v : option ReconciliationData) (s : State)
  : State :=
  {| imports := imports s; selectedImport := selectedImport s;
     reconciliation := v; agentSummary := agentSummary s;
     loadingDetail := loadingDetail s; activeTab := activeTab s;
     actionLoading := actionLoading s |}.

Definition setAgentSummary (v : option SummaryData) (s : State) : State :=
  {| imports := imports s; selectedImport := selectedImport s;
     reconciliation := reconciliation s; agentSummary := v;
     loadingDetail := loadingDetail s; activeTab := activeTab s;
     actionLoading := actionLoading s |}.

Definition setLoadingDetail (v : bool) (s : State) : State :=
  {| imports := imports s; selectedImport := selectedImport s;
     reconciliation := reconciliation s; agentSummary := agentSummary s;
     loadingDetail := v; activeTab := activeTab s;
     actionLoading := actionLoading s |}.

Definition setActiveTab (v : Tab) (s : State) : State :=
  {| imports := imports s; selectedImport := selectedImport s;
     reconciliation := reconciliation s; agentSummary := agentSummary s;
     loadingDetail := loadingDetail s; activeTab := v;
     actionLoading := actionLoading s |}.

Definition setActionLoading (v : option string) (s : State) : State :=
  {| imports := imports s; selectedImport := selectedImport s;
     reconciliation := reconciliation s; agentSummary := agentSummary s;
     loadingDetail := loadingDetail s; activeTab := activeTab s;
     actionLoading := v |}.

(** [loadImports], lines 119-126; [listed] is the response, or [None]
    when the request fails (the failure is only logged). *)
Definition loadImports (listed : option (list ImportRecord)) (s : State)
  : State * list Event :=
  (match listed with
   | Some l => setImports l s
   | None => s
   end, [Listed]).

(** [loadDetail], lines 164-175. *)
Definition loadDetail (importId : Z) (preserveAgentSummary : bool)
    (got : option ReconciliationData) (s : State) : State * list Event :=
  let s := setLoadingDetail true s in
  let s := if negb preserveAgentSummary then setAgentSummary None s else s in
  let s := match got with
           | Some d => setReconciliation (Some d) s
           | None => s
           end in
  (setLoadingDetail false s, [Got importId]).

(** [handleMatch], lines 177-191, on the page state. *)
Definition handleMatch (importId : Z)
    (outcome : gmap string Z + option string)
    (listed : option (list ImportRecord)) (got : option ReconciliationData)
    (s : State) : State * list Event :=
  let s := setActionLoading (Some "match") s in
  let '(s, events) :=
    match outcome with
    | inl data =>
        let '(s, e1) := loadImports listed s in
        let '(s, e2) := loadDetail importId false got s in
        (s, [Alerted (matchMessage data)] ++ e1 ++ e2)
    | inr detail =>
        (s, [Alerted (orString (default "" detail) "Matching failed")])
    end in
  (setActionLoading None s, Matched importId :: events).

(** [handleCalculate], lines 209-221. *)
Definition handleCalculate (importId : Z)
    (outcome : SummaryData + option string)
    (got : option ReconciliationData) (s : State) : State * list Event :=
  let s := setActionLoading (Some "calculate") s in
  let '(s, events) :=
    match outcome with
    | inl data =>
        let s := setAgentSummary (Some data) s in
        let s := setActiveTab TabAgents s in
        loadDetail importId true got s
    | inr detail =>
        (s, [Alerted (orString (default "" detail) "Calculation failed")])
    end in
  (setActionLoading None s, Calculated importId :: events).

(** [handleDeleteImport], lines 193-207; [outcome] is [inl] when the
    delete request succeeds and the error detail otherwise. *)
Definition handleDeleteImport (importId : Z) (confirmed : bool)
    (outcome : unit + option string) (listed : option (list ImportRecord))
    (s : State) : State * list Event :=
  let asked :=
    Asked "Delete this import and all its matched lines? This cannot be undone." in
  if negb confirmed then (s, [asked])
  else
    match outcome with
    | inl _ =>
        let s :=
          if bool_decide (selectedImport s = Some importId)
          then setAgentSummary None
                 (setReconciliation None (setSelectedImport None s))
          else s in
        let '(s, e) := loadImports listed s in
        (s, [asked; Deleted importId] ++ e)
    | inr detail =>
        (s, [asked; Deleted importId;
             Alerted (orString (default "" detail) "Delete failed")])
    end.

End Handlers.

End Page.

(** ** The payroll handlers *)

Module PayrollUi.

Inductive Event :=
  | Asked (msg : string)
  | Alerted (msg : string)
  | PostedSubmit (request : SubmitRequest)
  | Posted (url : string)
  | FetchedDetail (url : string).

(** The state of [PayrollActions] that the three handlers change. *)
Record State := {
  payrollStatus : option PayrollStatus;
  loading : bool;
}.

(** [loadPayrollStatus], lines 1011-1018: a failed request stores
    [null]. *)
Definition loadPayrollStatus (period_ : string)
    (fetched : option PayrollStatus) (s : State) : State * list Event :=
  ({| payrollStatus := fetched; loading := loading s |},
   [FetchedDetail ("/api/payroll/detail/" +:+ period_)]).

(** The common shape of the three handlers: ask, raise [loading], send,
    then alert and reload on success or alert the failure, and lower
    [loading] at the end. *)
Definition confirmedCall (question : string) (sent : Event)
    (done_ failed : string) (period_ : string) (confirmed : bool)
    (outcome : unit + option string) (fetched : option PayrollStatus)
    (s : State) : State * list Event :=
  if negb confirmed then (s, [Asked question])
  else
    let s := {| payrollStatus := payrollStatus s; loading := true |} in
    let '(s, events) :=
      match outcome with
      | inl _ =>
          let '(s, e) := loadPayrollStatus period_ fetched s in
          (s, Alerted done_ :: e)
      | inr detail => (s, [Alerted (orString (default "" detail) failed)])
      end in
    ({| payrollStatus := payrollStatus s; loading := false |},
     Asked question :: sent :: events).

(** [handleSubmit], lines 1030-1055. *)
Definition handleSubmit (period_ : string)
    (rateAdjustments bonuses : gmap Z Qc) :=
  confirmedCall
    "Submit payroll for this period? This will lock the calculations."
    (PostedSubmit (handleSubmit_request period_ rateAdjustments bonuses))
    "Payroll submitted and locked!" "Failed to submit payroll" period_.

(** [handleMarkPaid], lines 1057-1069. *)
Definition handleMarkPaid (period_ : string) :=
  confirmedCall "Mark all agent commissions as PAID for this period?"
    (Posted ("/api/payroll/mark-paid/" +:+ period_))
    "Payroll marked as paid! Sales updated to Commission Paid."
    "Failed to mark paid" period_.

(** [handleUnlock], lines 1071-1083. *)
Definition handleUnlock (period_ : string) :=
  confirmedCall "Unlock this payroll for re-calculation? (Admin override)"
    (Posted ("/api/payroll/unlock/" +:+ period_))
    "Payroll unlocked." "Failed to unlock" period_.

(** The requests among the events: the POST of a handler and the GET of
    [loadPayrollStatus]. *)
Definition isRequest (e : Event) : bool :=
  match e with
  | PostedSubmit _ | Posted _ | FetchedDetail _ => true
  | _ => false
  end.

End PayrollUi.

Definition selectedThree : Page.State unit unit :=
  {| Page.imports := [januaryGrange]; Page.selectedImport := Some 3%Z;
     Page.reconciliation := Some tt; Page.agentSummary := Some tt;
     Page.loadingDetail := false; Page.activeTab := Page.TabAgents;
     Page.actionLoading := None |}.

Definition lockedJanuary : PayrollStatus :=
  {| status := "submitted"; is_locked := true;
     submitted_at := Some "2024-02-05T12:00:00"; paid_at := None |}.

Definition secondGrange : ImportRecord :=
  {| id := 8; filename := "grange-jan-v2.csv"; carrier := "grange";
     period := "2024-01"; import_status := "uploaded";
     total_rows := 44; matched_rows := 0; unmatched_rows := 44;
     total_premium := Qc_of_Z 53000; total_commission := Qc_of_Z 6200;
     created_at := "2024-02-06T10:00:00" |}.

Definition producedLine : TableLine :=
  {| line_id := 3; policy_number := None; insured_name := None;
     producer_name := Some "J. Smith" |}.
(** * Properties *)

(** ** Arithmetic of the number model *)

Lemma orZero_default (o : option Qc) : orZero o = default 0 o.
Proof. destruct o as [q|]; simpl; [|done]. case_bool_decide; congruence. Qed.

Lemma add_Num p q : add (Num p) (Num q) = Num (p + q).
Proof. reflexivity. Qed.

Lemma div_Num p q : q ≠ 0 → div (Num p) (Num q) = Num (p / q).
Proof. intros Hq. simpl. by rewrite bool_decide_eq_false_2. Qed.

Lemma truthy_false_iff v :
  truthy v = false ↔ v = Undefined ∨ v = Null ∨ v = Number 0.
Proof.
  destruct v as [| |q]; simpl.
  - split; [auto | done].
  - split; [auto | done].
  - rewrite negb_false_iff, bool_decide_eq_true. split.
    + intros ->. auto.
    + intros [H|[H|H]]; congruence.
Qed.

Lemma scale_back (p r b : Qc) : r ≠ 0 → p / r * (r + 0) + b = p + b.
Proof. intros Hr. field. exact Hr. Qed.

(** ** The adjusted commission *)

Section AdjustedCommission.

Variables rateAdjustments bonuses : gmap Z Qc.
Variable agent : AgentSummary.

Let adj := getAdjustment rateAdjustments (agent_id agent).
Let flat := getBonus bonuses (agent_id agent).
Let pay := ToNumber (basePay agent).

Lemma adjusted_no_adjustment divide :
  adj = 0 →
  getAdjustedCommissionWith divide rateAdjustments bonuses agent
  = add pay (Num flat).
Proof.
  intros H. unfold getAdjustedCommissionWith. fold adj.
  by rewrite bool_decide_eq_true_2.
Qed.

Lemma adjusted_no_rate divide :
  truthy (commission_rate agent) = false →
  getAdjustedCommissionWith divide rateAdjustments bonuses agent
  = add pay (Num flat).
Proof.
  intros H. unfold getAdjustedCommissionWith. fold adj.
  rewrite H. simpl. by case_bool_decide.
Qed.

Lemma adjusted_scaled divide :
  adj ≠ 0 → truthy (commission_rate agent) = true →
  getAdjustedCommissionWith divide rateAdjustments bonuses agent
  = add (mul (divide pay (ToNumber (commission_rate agent)))
             (add (ToNumber (commission_rate agent)) (Num adj)))
        (Num flat).
Proof.
  intros Ha Hr. unfold getAdjustedCommissionWith. fold adj.
  rewrite bool_decide_eq_false_2 by done. by rewrite Hr.
Qed.

End AdjustedCommission.

(** C1. For an agent summary whose base commission rate [r] is a nonzero
    number, and for every way the operators [+], [*] and [/] compute: when
    the rate adjustment stored for the agent is nonzero, the net agent pay
    is the commissionable premium base (base pay divided by [r])
    multiplied by ([r] plus the adjustment), plus the flat bonus; when it
    is zero the pay is base pay plus bonus.  The adjustment and the bonus
    are the values stored for the agent in the two dictionaries, and zero
    for an agent without an entry. *)
Theorem adjusted_commission_formula
    (plus times divide : number → number → number)
    (rateAdjustments bonuses : gmap Z Qc) (agent : AgentSummary) (r : Qc) :
  commission_rate agent = Number r → r ≠ 0 →
  let adj := default 0 (rateAdjustments !! agent_id agent) in
  let flat := default 0 (bonuses !! agent_id agent) in
  let pay := ToNumber (basePay agent) in
  (adj ≠ 0 →
     getAdjustedCommissionOps plus times divide rateAdjustments bonuses agent
     = plus (times (divide pay (Num r)) (plus (Num r) (Num adj))) (Num flat))
  ∧ (adj = 0 →
     getAdjustedCommissionOps plus times divide rateAdjustments bonuses agent
     = plus pay (Num flat))
  ∧ getAdjustedCommission rateAdjustments bonuses agent
    = getAdjustedCommissionOps add mul div rateAdjustments bonuses agent.
Proof.
  intros Hrate Hr adj flat pay.
  assert (Ha : getAdjustment rateAdjustments (agent_id agent) = adj)
    by apply orZero_default.
  assert (Hb : getBonus bonuses (agent_id agent) = flat)
    by apply orZero_default.
  split; [|split; [|reflexivity]].
  - intros Hadj. unfold getAdjustedCommissionOps. rewrite Ha, Hb, Hrate.
    rewrite bool_decide_eq_false_2 by done. simpl.
    by rewrite bool_decide_eq_false_2.
  - intros Hadj. unfold getAdjustedCommissionOps. rewrite Ha, Hb.
    by rewrite bool_decide_eq_true_2.
Qed.

(** C9. When the base commission rate of an agent is zero or missing, the
    adjusted commission is base pay plus bonus whatever the division
    operator would compute, so the division by the rate does not take
    part in the result; the rate adjustment is ignored; and for a numeric
    base pay the result is a finite number, neither [NaN] nor an
    infinity. *)
Theorem zero_rate_skips_division
    (rateAdjustments bonuses : gmap Z Qc) (agent : AgentSummary) :
  commission_rate agent = Number 0 ∨ commission_rate agent = Undefined
  ∨ commission_rate agent = Null →
  let flat := getBonus bonuses (agent_id agent) in
  (∀ divide,
     getAdjustedCommissionWith divide rateAdjustments bonuses agent
     = add (ToNumber (basePay agent)) (Num flat))
  ∧ getAdjustedCommission rateAdjustments bonuses agent
    = add (ToNumber (basePay agent)) (Num flat)
  ∧ (∀ otherAdjustments,
     getAdjustedCommission otherAdjustments bonuses agent
     = getAdjustedCommission rateAdjustments bonuses agent)
  ∧ (∀ p, basePay agent = Number p →
     getAdjustedCommission rateAdjustments bonuses agent = Num (p + flat)).
Proof.
  intros Hrate flat.
  assert (Hf : truthy (commission_rate agent) = false).
  { apply truthy_false_iff. destruct Hrate as [H|[H|H]]; auto. }
  assert (Hall : ∀ ra divide,
    getAdjustedCommissionWith divide ra bonuses agent
    = add (ToNumber (basePay agent)) (Num flat)).
  { intros ra divide. by apply adjusted_no_rate. }
  unfold getAdjustedCommission. repeat split.
  - intros divide. apply Hall.
  - apply Hall.
  - intros other. by rewrite !Hall.
  - intros p Hp. rewrite Hall, Hp. reflexivity.
Qed.

Lemma adjusted_commission_formula_witness :
  getAdjustedCommission eighthUp ∅ agentEighth = Num (Qc_of_Z 256).
Proof.
  assert (Hr : Q2Qc (1 # 8) ≠ 0) by done.
  pose proof (adjusted_commission_formula add mul div eighthUp ∅ agentEighth
                (Q2Qc (1 # 8)) eq_refl Hr) as (Hscaled & _ & Hmodel).
  rewrite Hmodel, Hscaled by done.
  vm_compute. f_equal. apply Qc_is_canon. reflexivity.
Defined.

Lemma zero_rate_skips_division_witness :
  getAdjustedCommission halfPointUp ∅ agentNoRate
  = Num (Qc_of_Z 120 + getBonus ∅ 7).
Proof.
  exact (proj2 (proj2 (proj2
           (zero_rate_skips_division halfPointUp ∅ agentNoRate
              (or_introl eq_refl))))
         (Qc_of_Z 120) eq_refl).
Defined.

(** ** Overrides on the wire *)

Lemma elem_of_keys (dict : gmap Z Qc) (k : Z) :
  k ∈ keys dict ↔ is_Some (dict !! k).
Proof.
  unfold keys. rewrite list_elem_of_fmap. split.
  - intros [[k' v] [-> Hin]]. apply elem_of_map_to_list in Hin. by exists v.
  - intros [v Hv]. exists (k, v). split; [done|]. by apply elem_of_map_to_list.
Qed.

Lemma elem_of_allAgentIds (ra bo : gmap Z Qc) (k : Z) :
  k ∈ allAgentIds ra bo ↔ is_Some (ra !! k) ∨ is_Some (bo !! k).
Proof.
  unfold allAgentIds.
  by rewrite elem_of_remove_dups, elem_of_app, !elem_of_keys.
Qed.

Lemma addOverride_lookup ra bo acc k j :
  addOverride ra bo acc k !! j
  = if decide (j = k ∧ overridden ra bo k)
    then Some {| rate_adjustment := getAdjustment ra k;
                 bonus := getBonus bo k |}
    else acc !! j.
Proof.
  unfold addOverride, overridden, getAdjustment, getBonus.
  destruct (decide (orZero (ra !! k) = 0)) as [Ha|Ha];
    destruct (decide (orZero (bo !! k) = 0)) as [Hb|Hb];
    rewrite ?(bool_decide_eq_true_2 _ Ha), ?(bool_decide_eq_false_2 _ Ha),
            ?(bool_decide_eq_true_2 _ Hb), ?(bool_decide_eq_false_2 _ Hb);
    simpl; case_decide as Hd.
  all: try (destruct Hd as [-> [Hd|Hd]]; try done; by rewrite lookup_insert_eq).
  all: try done.
  all: destruct (decide (j = k)) as [->|Hne];
       [exfalso; apply Hd; auto | by rewrite lookup_insert_ne].
Qed.

Lemma foldl_addOverride_lookup ra bo ids acc j :
  foldl (addOverride ra bo) acc ids !! j
  = if decide (j ∈ ids ∧ overridden ra bo j)
    then Some {| rate_adjustment := getAdjustment ra j;
                 bonus := getBonus bo j |}
    else acc !! j.
Proof.
  revert acc. induction ids as [|k ids IH]; intros acc.
  - rewrite decide_False; [done|]. intros [Hin _]. by apply elem_of_nil in Hin.
  - cbn [foldl]. rewrite IH, addOverride_lookup.
    destruct (decide (j ∈ ids ∧ overridden ra bo j)) as [[Hin Ho]|Hn].
    + rewrite decide_True; [done|]. split; [apply elem_of_cons; by right|done].
    + destruct (decide (j = k ∧ overridden ra bo k)) as [[-> Ho]|Hn2].
      * rewrite decide_True; [done|]. split; [apply elem_of_cons; by left|done].
      * rewrite decide_False; [done|]. intros [Hin Ho].
        apply elem_of_cons in Hin as [->|Hin]; tauto.
Qed.

Lemma orZero_ne_is_Some (o : option Qc) : orZero o ≠ 0 → is_Some o.
Proof. destruct o; [eauto | done]. Qed.

Lemma buildAgentOverrides_lookup ra bo j :
  buildAgentOverrides ra bo !! j
  = if decide (overridden ra bo j)
    then Some {| rate_adjustment := getAdjustment ra j;
                 bonus := getBonus bo j |}
    else None.
Proof.
  unfold buildAgentOverrides. rewrite foldl_addOverride_lookup, lookup_empty.
  destruct (decide (overridden ra bo j)) as [Ho|Ho].
  - rewrite decide_True; [done|]. split; [|done]. apply elem_of_allAgentIds.
    destruct Ho as [Ha|Hb]; [left|right]; by apply orZero_ne_is_Some.
  - rewrite decide_False; [done|]. tauto.
Qed.

Lemma buildAgentOverrides_ext ra bo ra' bo' :
  (∀ k, getAdjustment ra k = getAdjustment ra' k) →
  (∀ k, getBonus bo k = getBonus bo' k) →
  buildAgentOverrides ra bo = buildAgentOverrides ra' bo'.
Proof.
  intros Ha Hb. apply map_eq. intros j.
  rewrite !buildAgentOverrides_lookup.
  assert (Hiff : overridden ra bo j ↔ overridden ra' bo' j).
  { unfold overridden. by rewrite (Ha j), (Hb j). }
  destruct (decide (overridden ra bo j)), (decide (overridden ra' bo' j));
    try tauto.
  by rewrite (Ha j), (Hb j).
Qed.

Lemma orZero_zero_or_missing (dict : gmap Z Qc) (k j : Z) :
  orZero (<[k := 0]> dict !! j) = orZero (delete k dict !! j).
Proof.
  destruct (decide (k = j)) as [->|Hne].
  - by rewrite lookup_insert_eq, lookup_delete_eq.
  - by rewrite lookup_insert_ne, lookup_delete_ne.
Qed.

Lemma setIfTruthy_lookup key x params k :
  setIfTruthy key x params !! k
  = match x with
    | Some q => if decide (k = key ∧ q ≠ 0) then Some q else params !! k
    | None => params !! k
    end.
Proof.
  unfold setIfTruthy, truthyArg. destruct x as [q|]; [|done].
  case_bool_decide as Hq; simpl; case_decide as Hd.
  - by destruct Hd.
  - done.
  - destruct Hd as [-> _]. by rewrite lookup_insert_eq.
  - rewrite lookup_insert_ne; [done|]. intros ->. by apply Hd.
Qed.

Lemma sheetParam_agentSheet period agentId x b key :
  sheetParam (agentSheet period agentId x b) key
  = setIfTruthy "bonus" b (setIfTruthy "rate_adjustment" x ∅) !! key.
Proof.
  unfold sheetParam, agentSheet. simpl.
  case_bool_decide as Hsz; simpl; [|done].
  apply map_size_empty_iff in Hsz. by rewrite Hsz, lookup_empty.
Qed.

Lemma sheet_rate_param period agentId x b q :
  sheetParam (agentSheet period agentId x b) "rate_adjustment" = Some q
  ↔ x = Some q ∧ q ≠ 0.
Proof.
  rewrite sheetParam_agentSheet, !setIfTruthy_lookup.
  assert (Hx : match x with
               | Some qx =>
                   if decide ("rate_adjustment" = "rate_adjustment" ∧ qx ≠ 0)
                   then Some qx
                   else (∅ : gmap string Qc) !! "rate_adjustment"
               | None => (∅ : gmap string Qc) !! "rate_adjustment"
               end = Some q ↔ x = Some q ∧ q ≠ 0).
  { destruct x as [qx|]; [|rewrite lookup_empty; split; [done|by intros [? _]]].
    destruct (decide ("rate_adjustment" = "rate_adjustment" ∧ qx ≠ 0))
      as [[_ Hq]|Hn].
    - split; [intros [= ->]; by split | by intros [[= ->] _]].
    - rewrite lookup_empty. split; [done|]. intros [[= ->] Hq]. by destruct Hn. }
  destruct b as [qb|]; [|exact Hx].
  rewrite decide_False by (intros [[=] _]). exact Hx.
Qed.

Lemma sheet_bonus_param period agentId x b q :
  sheetParam (agentSheet period agentId x b) "bonus" = Some q
  ↔ b = Some q ∧ q ≠ 0.
Proof.
  rewrite sheetParam_agentSheet, !setIfTruthy_lookup.
  assert (Hx : match x with
               | Some qx => if decide ("bonus" = "rate_adjustment" ∧ qx ≠ 0)
                            then Some qx else (∅ : gmap string Qc) !! "bonus"
               | None => (∅ : gmap string Qc) !! "bonus"
               end = None).
  { destruct x as [qx|]; [|done]. by rewrite decide_False by (intros [[=] _]). }
  rewrite Hx. destruct b as [qb|]; [|split; [done|by intros [? _]]].
  destruct (decide ("bonus" = "bonus" ∧ qb ≠ 0)) as [[_ Hq]|Hn].
  - split; [intros [= ->]; by split | by intros [[= ->] _]].
  - split; [done|]. intros [[= ->] Hq]. by destruct Hn.
Qed.

Lemma pdf_query_elem apiBase period agentId x b key q :
  (key, q) ∈ pdf_query (handleDownloadPdf apiBase period agentId x b)
  ↔ (key = "rate_adjustment" ∧ propOrZero x = q ∧ q ≠ 0)
    ∨ (key = "bonus" ∧ propOrZero b = q ∧ q ≠ 0).
Proof.
  unfold handleDownloadPdf. cbn [pdf_query].
  destruct (decide (propOrZero x = 0)) as [Hx|Hx];
    destruct (decide (propOrZero b = 0)) as [Hb|Hb];
    rewrite ?(bool_decide_eq_true_2 _ Hx), ?(bool_decide_eq_false_2 _ Hx),
            ?(bool_decide_eq_true_2 _ Hb), ?(bool_decide_eq_false_2 _ Hb);
    cbn [negb app]; rewrite ?elem_of_cons, ?elem_of_nil; split.
  - intros [].
  - intros [(_ & <- & Hq)|(_ & <- & Hq)]; done.
  - intros [[= -> ->]|[]]. right. done.
  - intros [(_ & <- & Hq)|(-> & <- & Hq)]; [done|]. by left.
  - intros [[= -> ->]|[]]. left. done.
  - intros [(-> & <- & Hq)|(_ & <- & Hq)]; [|done]. by left.
  - intros [[= -> ->]|[[= -> ->]|[]]]; [left|right]; done.
  - intros [(-> & <- & Hq)|(-> & <- & Hq)]; [by left|right; by left].
Qed.

Lemma pdf_query_rate apiBase period agentId x b q :
  ("rate_adjustment", q) ∈ pdf_query (handleDownloadPdf apiBase period agentId x b)
  ↔ propOrZero x = q ∧ q ≠ 0.
Proof.
  rewrite pdf_query_elem. split.
  - intros [(_ & H)|([=] & _)]. exact H.
  - intros H. left. by split.
Qed.

Lemma pdf_query_bonus apiBase period agentId x b q :
  ("bonus", q) ∈ pdf_query (handleDownloadPdf apiBase period agentId x b)
  ↔ propOrZero b = q ∧ q ≠ 0.
Proof.
  rewrite pdf_query_elem. split.
  - intros [([=] & _)|(_ & H)]. exact H.
  - intros H. right. by split.
Qed.

Lemma overrides_on_the_wire
    (period apiBase : string) (rateAdjustments bonuses : gmap Z Qc)
    (agentId : Z) :
  let adj := getAdjustment rateAdjustments agentId in
  let bon := getBonus bonuses agentId in
  let body :=
    agent_overrides (handleSubmit_request period rateAdjustments bonuses) in
  (is_Some (body !! agentId) ↔ adj ≠ 0 ∨ bon ≠ 0)
  ∧ (∀ o, body !! agentId = Some o
          ↔ (adj ≠ 0 ∨ bon ≠ 0)
            ∧ o = {| rate_adjustment := adj; bonus := bon |})
  ∧ (∀ x b q,
       sheetParam (agentSheet period agentId x b) "rate_adjustment" = Some q
       ↔ x = Some q ∧ q ≠ 0)
  ∧ (∀ x b q,
       sheetParam (agentSheet period agentId x b) "bonus" = Some q
       ↔ b = Some q ∧ q ≠ 0)
  ∧ (∀ x b q,
       ("rate_adjustment", q)
         ∈ pdf_query (handleDownloadPdf apiBase period agentId x b)
       ↔ propOrZero x = q ∧ q ≠ 0)
  ∧ (∀ x b q,
       ("bonus", q) ∈ pdf_query (handleDownloadPdf apiBase period agentId x b)
       ↔ propOrZero b = q ∧ q ≠ 0)
  ∧ (is_Some (sheetParam
                (selectedAgentSheet period rateAdjustments bonuses agentId)
                "rate_adjustment") ↔ adj ≠ 0)
  ∧ (is_Some (sheetParam
                (selectedAgentSheet period rateAdjustments bonuses agentId)
                "bonus") ↔ bon ≠ 0)
  ∧ (("rate_adjustment", adj)
       ∈ pdf_query (selectedAgentPdf apiBase period rateAdjustments bonuses
                      agentId)
     ↔ adj ≠ 0)
  ∧ (("bonus", bon)
       ∈ pdf_query (selectedAgentPdf apiBase period rateAdjustments bonuses
                      agentId)
     ↔ bon ≠ 0)
  ∧ agentSheet period agentId (Some 0) (Some 0)
    = agentSheet period agentId None None
  ∧ handleDownloadPdf apiBase period agentId (Some 0) (Some 0)
    = handleDownloadPdf apiBase period agentId None None
  ∧ handleSubmit_request period (<[agentId := 0]> rateAdjustments)
                         (<[agentId := 0]> bonuses)
    = handleSubmit_request period (delete agentId rateAdjustments)
                           (delete agentId bonuses).
Proof.
  intros adj bon body.
  assert (Hbody : body !! agentId
    = if decide (overridden rateAdjustments bonuses agentId)
      then Some {| rate_adjustment := adj; bonus := bon |} else None).
  { subst body. unfold handleSubmit_request, payrollAPI_submit. simpl.
    apply buildAgentOverrides_lookup. }
  pose proof (sheet_rate_param period agentId) as Hrate.
  pose proof (sheet_bonus_param period agentId) as Hbonus.
  split; [|split; [|split; [exact Hrate|split; [exact Hbonus|
    split; [|split; [|split; [|split; [|split; [|split;
    [|split; [|split]]]]]]]]]]].
  - rewrite Hbody. destruct (decide (overridden rateAdjustments bonuses agentId))
      as [Ho|Ho]; split.
    + intros _. exact Ho.
    + intros _. by eexists.
    + intros [o Ho2]. discriminate.
    + intros H. by destruct Ho.
  - intros o. rewrite Hbody.
    destruct (decide (overridden rateAdjustments bonuses agentId))
      as [Ho|Ho]; split.
    + intros [= <-]. split; [exact Ho|done].
    + intros [_ ->]. done.
    + discriminate.
    + intros [H _]. by destruct Ho.
  - intros x b q. apply pdf_query_rate.
  - intros x b q. apply pdf_query_bonus.
  - unfold selectedAgentSheet, AgentSheetModal_load, propOrZero. cbn [default].
    fold adj bon. split.
    + intros [q Hq]. apply Hrate in Hq as [[= ->] Hq]. exact Hq.
    + intros Hq. exists adj. by apply Hrate.
  - unfold selectedAgentSheet, AgentSheetModal_load, propOrZero. cbn [default].
    fold adj bon. split.
    + intros [q Hq]. apply Hbonus in Hq as [[= ->] Hq]. exact Hq.
    + intros Hq. exists bon. by apply Hbonus.
  - unfold selectedAgentPdf. rewrite pdf_query_rate. fold adj. cbn. tauto.
  - unfold selectedAgentPdf. rewrite pdf_query_bonus. fold bon. cbn. tauto.
  - reflexivity.
  - reflexivity.
  - unfold handleSubmit_request. f_equal. f_equal.
    apply buildAgentOverrides_ext; intros k; apply orZero_zero_or_missing.
Qed.

(** C10. Zero-valued manual overrides are left out of the requests.  The
    body of the payroll submit has an entry for an agent exactly when the
    rate adjustment or the bonus stored for the agent is nonzero (a
    missing value counts as zero), and the entry carries both stored
    values.  The agent sheet request carries [rate_adjustment],
    respectively [bonus], exactly when the argument is present and
    nonzero, and so does the query of the PDF download; for the agent
    selected in the view that is exactly when the stored value is
    nonzero.  A request built from an explicit zero is equal to the
    request built from no override. *)
Theorem zero_overrides_omitted
    (period apiBase : string) (rateAdjustments bonuses : gmap Z Qc)
    (agentId : Z) :
  let adj := default 0 (rateAdjustments !! agentId) in
  let bon := default 0 (bonuses !! agentId) in
  let body :=
    agent_overrides (handleSubmit_request period rateAdjustments bonuses) in
  (is_Some (body !! agentId) ↔ adj ≠ 0 ∨ bon ≠ 0)
  ∧ (∀ o, body !! agentId = Some o
          ↔ (adj ≠ 0 ∨ bon ≠ 0)
            ∧ o = {| rate_adjustment := adj; bonus := bon |})
  ∧ (∀ x b q,
       sheetParam (agentSheet period agentId x b) "rate_adjustment" = Some q
       ↔ x = Some q ∧ q ≠ 0)
  ∧ (∀ x b q,
       sheetParam (agentSheet period agentId x b) "bonus" = Some q
       ↔ b = Some q ∧ q ≠ 0)
  ∧ (∀ x b q,
       ("rate_adjustment", q)
         ∈ pdf_query (handleDownloadPdf apiBase period agentId x b)
       ↔ propOrZero x = q ∧ q ≠ 0)
  ∧ (∀ x b q,
       ("bonus", q) ∈ pdf_query (handleDownloadPdf apiBase period agentId x b)
       ↔ propOrZero b = q ∧ q ≠ 0)
  ∧ (is_Some (sheetParam
                (selectedAgentSheet period rateAdjustments bonuses agentId)
                "rate_adjustment") ↔ adj ≠ 0)
  ∧ (is_Some (sheetParam
                (selectedAgentSheet period rateAdjustments bonuses agentId)
                "bonus") ↔ bon ≠ 0)
  ∧ (("rate_adjustment", adj)
       ∈ pdf_query (selectedAgentPdf apiBase period rateAdjustments bonuses
                      agentId)
     ↔ adj ≠ 0)
  ∧ (("bonus", bon)
       ∈ pdf_query (selectedAgentPdf apiBase period rateAdjustments bonuses
                      agentId)
     ↔ bon ≠ 0)
  ∧ agentSheet period agentId (Some 0) (Some 0)
    = agentSheet period agentId None None
  ∧ handleDownloadPdf apiBase period agentId (Some 0) (Some 0)
    = handleDownloadPdf apiBase period agentId None None
  ∧ handleSubmit_request period (<[agentId := 0]> rateAdjustments)
                         (<[agentId := 0]> bonuses)
    = handleSubmit_request period (delete agentId rateAdjustments)
                           (delete agentId bonuses).
Proof.
  intros adj bon body.
  pose proof (overrides_on_the_wire period apiBase rateAdjustments bonuses
                agentId) as H.
  cbv zeta in H. fold body in H.
  assert (Ha : getAdjustment rateAdjustments agentId = adj)
    by apply orZero_default.
  assert (Hb : getBonus bonuses agentId = bon) by apply orZero_default.
  rewrite Ha, Hb in H. exact H.
Qed.

Lemma zero_overrides_omitted_witness :
  agent_overrides (handleSubmit_request "2024-01" halfPointUp ∅) !! 7%Z
  = Some {| rate_adjustment := Q2Qc (5 # 1000); bonus := 0 |}
  ∧ agent_overrides (handleSubmit_request "2024-01" (setAdjustment ∅ 7 0) ∅)
      !! 7%Z = None.
Proof.
  split.
  - apply (proj1 (proj2 (zero_overrides_omitted "2024-01" "" halfPointUp ∅ 7))).
    split; [left; done | reflexivity].
  - pose proof (proj1 (zero_overrides_omitted "2024-01" ""
                         (setAdjustment ∅ 7 0) ∅ 7)) as H.
    apply eq_None_not_Some. intros Hs. apply H in Hs as [Hs|Hs]; by apply Hs.
Defined.

(** ** Payroll controls and the ledger *)

Module PayrollFacts.
Import Payroll.

Section Facts.

Variable calculate : string → gmap Z Override → Calculation.
Variable contributing : string → gset Z.

Lemma submit_ok_iff period overrides now L :
  (submit calculate period overrides now L).1 = Ok ↔ locked L period = false.
Proof.
  unfold submit. destruct (locked L period); simpl; split; done.
Qed.

Lemma submit_locks period overrides now L :
  locked L period = false →
  locked (submit calculate period overrides now L).2 period = true.
Proof.
  intros H. unfold submit. rewrite H. unfold locked. simpl.
  by rewrite lookup_insert_eq.
Qed.

Lemma submit_rejected period overrides now L :
  locked L period = true →
  submit calculate period overrides now L
  = (Rejected (PayrollStateConflict
       "payroll for this period is already locked; unlock it first"), L).
Proof. intros H. unfold submit. by rewrite H. Qed.

Lemma mark_paid_ok_iff period now L :
  (mark_paid contributing period now L).1 = Ok
  ↔ ∃ r, records L !! period = Some r ∧ status r = Submitted.
Proof.
  unfold mark_paid. destruct (records L !! period) as [r|] eqn:Hr.
  - case_bool_decide as Hs; simpl; split.
    + intros _. by exists r.
    + done.
    + done.
    + intros (r' & [= <-] & Hs'). done.
  - simpl. split; [done|]. by intros (r & [=] & _).
Qed.

Lemma rejected_unchanged rq L e :
  (handle calculate contributing rq L).1 = Rejected e →
  (handle calculate contributing rq L).2 = L ∧ reason e ≠ "".
Proof.
  destruct rq as [period overrides now|period now|period]; simpl.
  - unfold submit. destruct (locked L period); simpl; [|done].
    intros [= <-]. done.
  - unfold mark_paid. destruct (records L !! period) as [r|]; simpl.
    + case_bool_decide; simpl; [done|]. intros [= <-]. done.
    + intros [= <-]. done.
  - unfold unlock. destruct (records L !! period) as [r|]; simpl.
    + destruct (_ || _); simpl; [done|]. intros [= <-]. done.
    + intros [= <-]. done.
Qed.

End Facts.

Lemma offersSubmit_detail L period :
  offersSubmit (payrollDetail L period) = true ↔ locked L period = false.
Proof.
  unfold payrollDetail, locked.
  destruct (records L !! period) as [r|]; simpl; [|done].
  by rewrite negb_true_iff.
Qed.

Lemma status_name_submitted s : status_name s = "submitted" ↔ s = Submitted.
Proof. destruct s; simpl; split; intros H; try done; discriminate. Qed.

Lemma offersMarkPaid_detail L period :
  offersMarkPaid (payrollDetail L period) = true
  ↔ ∃ r, records L !! period = Some r ∧ status r = Submitted.
Proof.
  unfold payrollDetail.
  destruct (records L !! period) as [r|]; simpl.
  - rewrite bool_decide_eq_true, status_name_submitted. split.
    + intros H. by exists r.
    + by intros (r' & [= <-] & H).
  - split; [done|]. by intros (r & [=] & _).
Qed.

End PayrollFacts.

(** C4. In the ledger, [mark_paid] succeeds exactly when the period's
    record has status submitted, and [submit] succeeds exactly when the
    period is not locked; every rejected call returns a state conflict
    with a reason and leaves the ledger as it was.  In the payroll
    controls, Mark as Paid is offered exactly when there is a record with
    status 'submitted', Submit Payroll exactly when there is no record or
    the record is not locked, and Unlock exactly when there is a locked
    record. *)
Theorem payroll_transitions_guarded
    (calculate : string → gmap Z Override → Payroll.Calculation)
    (contributing : string → gset Z)
    (L : Payroll.Ledger) (period : string) (overrides : gmap Z Override)
    (now : Z) (payrollStatus : option PayrollStatus) :
  ((Payroll.mark_paid contributing period now L).1 = Payroll.Ok
   ↔ ∃ r, Payroll.records L !! period = Some r
          ∧ Payroll.status r = Payroll.Submitted)
  ∧ ((Payroll.submit calculate period overrides now L).1 = Payroll.Ok
     ↔ Payroll.locked L period = false)
  ∧ (∀ rq e,
       (Payroll.handle calculate contributing rq L).1 = Payroll.Rejected e →
       (Payroll.handle calculate contributing rq L).2 = L
       ∧ Payroll.reason e ≠ "")
  ∧ (offersMarkPaid payrollStatus = true
     ↔ ∃ p, payrollStatus = Some p ∧ status p = "submitted")
  ∧ (offersSubmit payrollStatus = true
     ↔ payrollStatus = None
       ∨ ∃ p, payrollStatus = Some p ∧ is_locked p = false)
  ∧ (offersUnlock payrollStatus = true
     ↔ ∃ p, payrollStatus = Some p ∧ is_locked p = true)
  ∧ (offersMarkPaid (payrollDetail L period) = true
     ↔ (Payroll.mark_paid contributing period now L).1 = Payroll.Ok)
  ∧ (offersSubmit (payrollDetail L period) = true
     ↔ (Payroll.submit calculate period overrides now L).1 = Payroll.Ok).
Proof.
  split; [apply PayrollFacts.mark_paid_ok_iff|].
  split; [apply PayrollFacts.submit_ok_iff|].
  split; [intros rq e; apply PayrollFacts.rejected_unchanged|].
  rewrite PayrollFacts.offersMarkPaid_detail, PayrollFacts.offersSubmit_detail.
  rewrite PayrollFacts.mark_paid_ok_iff, PayrollFacts.submit_ok_iff.
  cut ((offersMarkPaid payrollStatus = true
        ↔ ∃ p, payrollStatus = Some p ∧ status p = "submitted")
       ∧ (offersSubmit payrollStatus = true
          ↔ payrollStatus = None
            ∨ ∃ p, payrollStatus = Some p ∧ is_locked p = false)
       ∧ (offersUnlock payrollStatus = true
          ↔ ∃ p, payrollStatus = Some p ∧ is_locked p = true)).
  { intros (H1 & H2 & H3). repeat split; try apply H1; try apply H2;
      try apply H3; tauto. }
  destruct payrollStatus as [p|]; simpl.
  - rewrite bool_decide_eq_true, negb_true_iff. repeat split.
    + intros H. by exists p.
    + by intros (p' & [= <-] & H).
    + intros H. right. by exists p.
    + intros [H|(p' & [= <-] & H)]; done.
    + intros H. by exists p.
    + by intros (p' & [= <-] & H).
  - repeat split; try done.
    + by intros (p & [=] & _).
    + intros _. by left.
    + by intros (p & [=] & _).
Qed.

Lemma payroll_transitions_guarded_witness :
  (Payroll.handle (λ _ _, Payroll.Build_Calculation 0 0 0) (λ _, ∅)
     (Payroll.MarkPaid "2024-01" 5) emptyLedger).2 = emptyLedger
  ∧ Payroll.reason
      (Payroll.PayrollStateConflict "payroll for this period was never submitted")
    ≠ "".
Proof.
  exact (proj1 (proj2 (proj2
    (payroll_transitions_guarded (λ _ _, Payroll.Build_Calculation 0 0 0)
       (λ _, ∅) emptyLedger "2024-01" ∅ 5 None)))
    (Payroll.MarkPaid "2024-01" 5)
    (Payroll.PayrollStateConflict "payroll for this period was never submitted")
    eq_refl).
Defined.

(** ** Concurrent submits *)

Module ConcurrentFacts.
Import Payroll Concurrent.

Section Facts.

Variable calculate : string → gmap Z Override → Calculation.

Lemma submit_writes c L :
  locked L (call_period c) = false →
  submit calculate (call_period c) (call_overrides c) (call_now c) L
  = (Ok, write calculate c L).
Proof. intros H. unfold submit, write. by rewrite H. Qed.

Lemma write_locks c c' L :
  call_period c' = call_period c →
  locked (write calculate c L) (call_period c') = true.
Proof.
  intros ->. unfold locked, write. simpl. by rewrite lookup_insert_eq.
Qed.

(** A step of either call keeps the guarded system consistent. *)
Lemma advance_consistent c1 c2 L0 S who :
  call_period c2 = call_period c1 →
  locked L0 (call_period c1) = false →
  consistent calculate c1 c2 L0 S →
  consistent calculate c1 c2 L0 (advance calculate true c1 c2 S who).
Proof.
  intros Hp Hfree.
  assert (Hfree2 : locked L0 (call_period c2) = false) by by rewrite Hp.
  pose proof (write_locks c1 c1 L0 eq_refl) as H11.
  pose proof (write_locks c1 c2 L0 Hp) as H12.
  pose proof (write_locks c2 c1 L0 (eq_sym Hp)) as H21.
  pose proof (write_locks c2 c2 L0 eq_refl) as H22.
  destruct S as [L ph1 ph2].
  destruct who, ph1 as [| |[|e1]], ph2 as [| |[|e2]];
    unfold consistent, advance, step; cbn -[submit write locked];
    intros HS; try done;
    (lazymatch type of HS with
     | _ ∧ _ => destruct HS as [-> HS]
     | _ => subst L
     end);
    rewrite ?Hfree, ?Hfree2, ?H11, ?H12, ?H21, ?H22,
      ?(submit_writes c1 L0 Hfree), ?(submit_writes c2 L0 Hfree2),
      ?(PayrollFacts.submit_rejected calculate _ _ _ _ H11),
      ?(PayrollFacts.submit_rejected calculate _ _ _ _ H12),
      ?(PayrollFacts.submit_rejected calculate _ _ _ _ H21),
      ?(PayrollFacts.submit_rejected calculate _ _ _ _ H22);
    cbn -[write]; try done;
    try (split; [done|]); unfold conflict; try tauto;
    try (destruct HS as [HS|[HS|HS]]; done).
Qed.

Lemma play_consistent c1 c2 L0 schedule S :
  call_period c2 = call_period c1 →
  locked L0 (call_period c1) = false →
  consistent calculate c1 c2 L0 S →
  consistent calculate c1 c2 L0 (play calculate true c1 c2 schedule S).
Proof.
  intros Hp Hfree. revert S.
  induction schedule as [|who schedule IH]; intros S HS; [done|].
  apply IH. by apply advance_consistent.
Qed.

(** A call's own step takes it further, up to its return; the other
    call's steps leave it where it is. *)
Lemma step_progress guarded c ph L :
  (progress ph < progress (step calculate guarded c ph L).1
   ∨ 2 ≤ progress (step calculate guarded c ph L).1)%nat.
Proof.
  destruct ph as [| |r]; simpl.
  - destruct (locked L (call_period c)); simpl; lia.
  - destruct guarded; [destruct (submit _ _ _ _ _)|]; simpl; lia.
  - lia.
Qed.

Lemma play_progress guarded c1 c2 schedule sys :
  ((2 ≤ progress (first sys)
        + length (filter (λ who, who = false) schedule))%nat →
   (2 ≤ progress (first (play calculate guarded c1 c2 schedule sys)))%nat)
  ∧ ((2 ≤ progress (second sys)
          + length (filter (λ who, who = true) schedule))%nat →
     (2 ≤ progress (second (play calculate guarded c1 c2 schedule sys)))%nat).
Proof.
  revert sys. induction schedule as [|who schedule IH]; intros sys.
  - unfold play. rewrite !filter_nil. cbn [foldl length]. lia.
  - unfold play. cbn [foldl].
    specialize (IH (advance calculate guarded c1 c2 sys who)).
    unfold play in IH. destruct IH as [IH1 IH2].
    pose proof (step_progress guarded c1 (first sys) (ledger sys)) as P1.
    pose proof (step_progress guarded c2 (second sys) (ledger sys)) as P2.
    revert IH1 IH2.
    generalize (foldl (advance calculate guarded c1 c2)
                  (advance calculate guarded c1 c2 sys who) schedule).
    intros final. unfold advance.
    destruct who.
    + destruct (step calculate guarded c2 (second sys) (ledger sys))
        as [ph L'].
      cbn [first second ledger fst] in *.
      rewrite filter_cons_False by done.
      rewrite filter_cons_True by done. cbn [length]. lia.
    + destruct (step calculate guarded c1 (first sys) (ledger sys))
        as [ph L'].
      cbn [first second ledger fst] in *.
      rewrite filter_cons_True by done.
      rewrite (filter_cons_False (λ who, who = true)) by done.
      cbn [length]. lia.
Qed.

Lemma finished_of_progress ph :
  (2 ≤ progress ph)%nat → ∃ resp, ph = Finished resp.
Proof. destruct ph as [| |r]; simpl; [lia|lia|]. by exists r. Qed.

End Facts.

End ConcurrentFacts.

(** C8. Two submit calls for one period that is not locked, each a read
    of the lock followed later by a write that checks the lock again,
    their steps interleaved by any schedule: a call that got two turns has
    returned; at no moment have both calls succeeded; when both have
    returned, one has succeeded and the other was rejected with a state
    conflict, and the period has one record, submitted and locked, that
    holds the overrides and the submission time of the call that
    succeeded, the ledger being the one that call alone produces.  The
    check at the write is what gives this: when the write does not check
    the lock again, the schedule read, read, write, write lets both calls
    succeed and the record holds the overrides of the second. *)
Theorem concurrent_submits_exclusive
    (calculate : string → gmap Z Override → Payroll.Calculation)
    (L : Payroll.Ledger) (period : string)
    (ov1 ov2 : gmap Z Override) (t1 t2 : Z) (schedule : list bool) :
  Payroll.locked L period = false →
  let c1 := Concurrent.Build_Call period ov1 t1 in
  let c2 := Concurrent.Build_Call period ov2 t2 in
  let S := Concurrent.play calculate true c1 c2 schedule
             (Concurrent.initial L) in
  ((2 ≤ length (filter (λ who, who = false) schedule))%nat →
     ∃ resp, Concurrent.first S = Concurrent.Finished resp)
  ∧ ((2 ≤ length (filter (λ who, who = true) schedule))%nat →
     ∃ resp, Concurrent.second S = Concurrent.Finished resp)
  ∧ ¬ (Concurrent.first S = Concurrent.Finished Payroll.Ok
       ∧ Concurrent.second S = Concurrent.Finished Payroll.Ok)
  ∧ (∀ resp1 resp2,
       Concurrent.first S = Concurrent.Finished resp1 →
       Concurrent.second S = Concurrent.Finished resp2 →
       ∃ ov t,
         ((resp1 = Payroll.Ok
           ∧ resp2 = Payroll.Rejected (Payroll.PayrollStateConflict
               "payroll for this period is already locked; unlock it first")
           ∧ ov = ov1 ∧ t = t1)
          ∨ (resp2 = Payroll.Ok
             ∧ resp1 = Payroll.Rejected (Payroll.PayrollStateConflict
                 "payroll for this period is already locked; unlock it first")
             ∧ ov = ov2 ∧ t = t2))
         ∧ Concurrent.ledger S = (Payroll.submit calculate period ov t L).2
         ∧ ∃ r, Payroll.records (Concurrent.ledger S) !! period = Some r
                ∧ Payroll.status r = Payroll.Submitted
                ∧ Payroll.is_locked r = true
                ∧ Payroll.agent_overrides r = ov
                ∧ Payroll.submitted_at r = Some t
                ∧ offersSubmit (payrollDetail L period) = true
                ∧ offersSubmit (payrollDetail (Concurrent.ledger S) period)
                  = false)
  ∧ (let U := Concurrent.play calculate false c1 c2
                [false; true; false; true] (Concurrent.initial L) in
     Concurrent.first U = Concurrent.Finished Payroll.Ok
     ∧ Concurrent.second U = Concurrent.Finished Payroll.Ok
     ∧ ∃ r, Payroll.records (Concurrent.ledger U) !! period = Some r
            ∧ Payroll.agent_overrides r = ov2
            ∧ Payroll.submitted_at r = Some t2).
Proof.
  intros Hfree c1 c2 S.
  assert (Hinv : Concurrent.consistent calculate c1 c2 L S).
  { apply ConcurrentFacts.play_consistent; done. }
  destruct (ConcurrentFacts.play_progress calculate true c1 c2 schedule
              (Concurrent.initial L)) as [P1 P2].
  fold S in P1, P2. cbn [Concurrent.initial Concurrent.first
    Concurrent.second Concurrent.progress] in P1, P2.
  assert (Hrec : ∀ c, Concurrent.call_period c = period →
    Concurrent.write calculate c L
    = (Payroll.submit calculate period (Concurrent.call_overrides c)
         (Concurrent.call_now c) L).2
    ∧ ∃ r, Payroll.records (Concurrent.write calculate c L) !! period = Some r
         ∧ Payroll.status r = Payroll.Submitted
         ∧ Payroll.is_locked r = true
         ∧ Payroll.agent_overrides r = Concurrent.call_overrides c
         ∧ Payroll.submitted_at r = Some (Concurrent.call_now c)
         ∧ offersSubmit (payrollDetail L period) = true
         ∧ offersSubmit
             (payrollDetail (Concurrent.write calculate c L) period) = false).
  { intros c <-. split.
    - by rewrite ConcurrentFacts.submit_writes.
    - assert (Hbefore : offersSubmit
                (payrollDetail L (Concurrent.call_period c)) = true)
        by by apply PayrollFacts.offersSubmit_detail.
      unfold payrollDetail at 2. unfold Concurrent.write. simpl.
      rewrite lookup_insert_eq. eexists. split; [reflexivity|]. done. }
  split; [|split; [|split; [|split]]].
  - intros H. apply ConcurrentFacts.finished_of_progress. apply P1. lia.
  - intros H. apply ConcurrentFacts.finished_of_progress. apply P2. lia.
  - intros [H1 H2]. unfold Concurrent.consistent in Hinv.
    by rewrite H1, H2 in Hinv.
  - intros resp1 resp2 H1 H2. unfold Concurrent.consistent in Hinv.
    rewrite H1, H2 in Hinv.
    destruct resp1 as [|e1], resp2 as [|e2]; try done.
    + destruct Hinv as [HL [?|[?|[= ->]]]]; try done.
      exists ov1, t1. rewrite HL. split; [by left|]. apply (Hrec c1 eq_refl).
    + destruct Hinv as [HL [?|[?|[= ->]]]]; try done.
      exists ov2, t2. rewrite HL. split; [by right|]. apply (Hrec c2 eq_refl).
  - clear Hinv P1 P2 Hrec. subst S c1 c2.
    unfold Concurrent.play, Concurrent.initial.
    cbn [foldl Concurrent.advance Concurrent.step Concurrent.first
         Concurrent.second Concurrent.ledger Concurrent.call_period].
    rewrite Hfree.
    cbn [foldl Concurrent.advance Concurrent.step Concurrent.first
         Concurrent.second Concurrent.ledger Concurrent.call_period].
    rewrite Hfree.
    cbn [foldl Concurrent.advance Concurrent.step Concurrent.first
         Concurrent.second Concurrent.ledger Concurrent.call_period].
    split; [done|]. split; [done|].
    unfold Concurrent.write. simpl. rewrite lookup_insert_eq.
    eexists. split; [reflexivity|]. done.
Qed.

Lemma concurrent_submits_exclusive_witness :
  Payroll.locked emptyLedger "2024-01" = false
  ∧ Concurrent.first raceResult
    = Concurrent.Finished (Payroll.Rejected (Payroll.PayrollStateConflict
        "payroll for this period is already locked; unlock it first"))
  ∧ Concurrent.second raceResult = Concurrent.Finished Payroll.Ok
  ∧ ∃ ov t,
      ((Payroll.Rejected (Payroll.PayrollStateConflict
          "payroll for this period is already locked; unlock it first")
        = Payroll.Ok
        ∧ Payroll.Ok
          = Payroll.Rejected (Payroll.PayrollStateConflict
              "payroll for this period is already locked; unlock it first")
        ∧ ov = halfPointOverride ∧ t = 20%Z)
       ∨ (Payroll.Ok = Payroll.Ok
          ∧ Payroll.Rejected (Payroll.PayrollStateConflict
              "payroll for this period is already locked; unlock it first")
            = Payroll.Rejected (Payroll.PayrollStateConflict
                "payroll for this period is already locked; unlock it first")
          ∧ ov = ∅ ∧ t = 10%Z))
      ∧ Concurrent.ledger raceResult
        = (Payroll.submit (λ _ _, Payroll.Build_Calculation 0 0 0)
             "2024-01" ov t emptyLedger).2
      ∧ ∃ r, Payroll.records (Concurrent.ledger raceResult) !! "2024-01"
             = Some r
             ∧ Payroll.status r = Payroll.Submitted
             ∧ Payroll.is_locked r = true
             ∧ Payroll.agent_overrides r = ov
             ∧ Payroll.submitted_at r = Some t
             ∧ offersSubmit (payrollDetail emptyLedger "2024-01") = true
             ∧ offersSubmit
                 (payrollDetail (Concurrent.ledger raceResult) "2024-01")
               = false.
Proof.
  assert (H0 : Payroll.locked emptyLedger "2024-01" = false) by reflexivity.
  assert (H1 : Concurrent.first raceResult
               = Concurrent.Finished (Payroll.Rejected
                   (Payroll.PayrollStateConflict
                      "payroll for this period is already locked; unlock it first")))
    by (vm_compute; reflexivity).
  assert (H2 : Concurrent.second raceResult
               = Concurrent.Finished Payroll.Ok)
    by (vm_compute; reflexivity).
  split; [exact H0|]. split; [exact H1|]. split; [exact H2|].
  exact (proj1 (proj2 (proj2 (proj2
    (concurrent_submits_exclusive (λ _ _, Payroll.Build_Calculation 0 0 0)
       emptyLedger "2024-01" halfPointOverride ∅ 20 10
       [false; true; true; false] H0)))) _ _ H1 H2).
Defined.

(** ** Upload and match advisories *)

Lemma uploadAndSelect_issues carrier_ period_ file outcome :
  ApiUpload carrier_ period_ file ∈ uploadAndSelect carrier_ period_ file outcome.
Proof.
  unfold uploadAndSelect. cbn [app]. apply elem_of_cons. right.
  apply elem_of_cons. by left.
Qed.

(** C6. When the selected carrier and period already have an import, the
    warning panel is rendered and [handleUpload] first asks the user to
    confirm, naming the existing import; the upload request is issued
    exactly when the user continues, and then the handler goes on as it
    does for a carrier and period without an import, so a second import
    for the pair is created. *)
Theorem duplicate_upload_is_advisory
    (imports : list ImportRecord) (carrier_ period_ file : string)
    (existing : ImportRecord) (outcome : UploadResponse + option string) :
  findExisting imports carrier_ period_ = Some existing →
  duplicateWarningPanel imports carrier_ period_
  = Some (carrierLabel carrier_ +:+ " already uploaded for " +:+ period_)
  ∧ (∀ confirmed,
       head (handleUpload imports carrier_ period_ (Some file) confirmed outcome)
       = Some (Confirm (duplicateConfirmText carrier_ period_ existing)))
  ∧ handleUpload imports carrier_ period_ (Some file) true outcome
    = Confirm (duplicateConfirmText carrier_ period_ existing)
      :: handleUpload [] carrier_ period_ (Some file) true outcome
  ∧ (∀ confirmed,
       ApiUpload carrier_ period_ file
         ∈ handleUpload imports carrier_ period_ (Some file) confirmed outcome
       ↔ confirmed = true).
Proof.
  intros Hex. unfold duplicateWarningPanel, handleUpload. rewrite Hex.
  split; [done|]. split; [done|]. split; [done|].
  intros [|]; simpl.
  - split; [done|]. intros _. apply elem_of_cons. right.
    apply uploadAndSelect_issues.
  - split; [|done]. intros H. apply elem_of_cons in H as [[=]|H].
    apply elem_of_cons in H as [[=]|H]. by apply elem_of_nil in H.
Qed.

Lemma duplicate_upload_is_advisory_witness :
  handleUpload [januaryGrange] "grange" "2024-01" (Some "grange-jan-v2.csv")
    true (inr None)
  = Confirm (duplicateConfirmText "grange" "2024-01" januaryGrange)
    :: handleUpload [] "grange" "2024-01" (Some "grange-jan-v2.csv")
         true (inr None).
Proof.
  exact (proj1 (proj2 (proj2
    (duplicate_upload_is_advisory [januaryGrange] "grange" "2024-01"
       "grange-jan-v2.csv" januaryGrange (inr None) eq_refl)))).
Defined.

(** C7. When the upload response says that the detected carrier replaced
    the selected one, the upload that was issued is followed by one alert
    whose text names the detected and the selected carrier, and the
    handler then continues as after any successful upload: it reloads the
    imports and selects the new import; no failure alert is shown. *)
Theorem carrier_disagreement_reported
    (imports : list ImportRecord) (carrier_ period_ file : string)
    (confirmed : bool) (res : UploadResponse) :
  carrier_overridden res = true →
  findExisting imports carrier_ period_ = None ∨ confirmed = true →
  let effects :=
    handleUpload imports carrier_ period_ (Some file) confirmed (inl res) in
  let text :=
    "Auto-detected: File looks like " +:+ carrierLabel (carrier_detected res)
    +:+ " (you selected " +:+ carrierLabel (carrier_selected res)
    +:+ "). Used " +:+ carrierLabel (carrier_detected res) +:+ " parser." in
  (∃ asked,
     effects = asked ++
       [SetUploading true; ApiUpload carrier_ period_ file; Alert text;
        LoadImports; SetSelectedImport (upload_id res);
        LoadDetail (upload_id res); SetUploading false; ResetFileInput])
  ∧ Alert text ∈ effects
  ∧ Alert "Upload failed" ∉ effects.
Proof.
  intros Hov Hissued effects text.
  assert (Hne : text ≠ "Upload failed").
  { subst text. unfold String.app at 1. simpl. discriminate. }
  assert (Hrun : ∃ asked, (asked = [] ∨ ∃ msg, asked = [Confirm msg])
    ∧ effects = asked ++
       [SetUploading true; ApiUpload carrier_ period_ file; Alert text;
        LoadImports; SetSelectedImport (upload_id res);
        LoadDetail (upload_id res); SetUploading false; ResetFileInput]).
  { subst effects. unfold handleUpload, uploadAndSelect.
    rewrite Hov. fold text.
    destruct (findExisting imports carrier_ period_) as [existing|].
    - destruct Hissued as [[=]| ->]. simpl.
      eexists [_]. split; [right; by eexists|done].
    - exists []. split; [by left|done]. }
  destruct Hrun as (asked & Hasked & ->).
  split; [by exists asked|]. split.
  - rewrite elem_of_app. right.
    do 2 (apply elem_of_cons; right). apply elem_of_cons. by left.
  - intros Hin. apply elem_of_app in Hin as [Hin|Hin].
    + destruct Hasked as [->|[msg ->]].
      * by apply elem_of_nil in Hin.
      * apply elem_of_cons in Hin as [[=]|Hin]. by apply elem_of_nil in Hin.
    + rewrite !elem_of_cons, elem_of_nil in Hin.
      destruct Hin as [H|[H|[H|[H|[H|[H|[H|[H|[]]]]]]]]]; try discriminate.
      all: injection H as H; by apply Hne.
Qed.

Lemma carrier_disagreement_reported_witness :
  Alert "Auto-detected: File looks like Progressive (you selected Grange). Used Progressive parser."
  ∈ handleUpload [] "grange" "2024-01" (Some "statement.csv") false
      (inl detectedProgressive).
Proof.
  exact (proj1 (proj2
    (carrier_disagreement_reported [] "grange" "2024-01" "statement.csv"
       false detectedProgressive eq_refl (or_introl eq_refl)))).
Defined.

(** For a match response with the fields [matched], [newly_matched] and
    [unmatched], [handleMatch] shows the three counts; when
    [newly_matched] is absent it shows zero new matches. *)
Lemma handleMatch_shows_counts (importId m n u : Z) :
  matchMessage (matchedShape m n u) = countsText m n u
  ∧ matchMessage {[ "matched" := m; "unmatched" := u ]} = countsText m 0 u
  ∧ handleMatch importId (inl (matchedShape m n u))
    = [SetActionLoading (Some "match"); ApiMatch importId;
       Alert (countsText m n u); LoadImports; LoadDetail importId;
       SetActionLoading None].
Proof.
  assert (H1 : matchMessage (matchedShape m n u) = countsText m n u).
  { unfold matchMessage, matchedShape, countsText.
    rewrite lookup_insert_eq.
    rewrite lookup_insert_ne by done. rewrite lookup_insert_eq.
    rewrite !lookup_insert_ne by done. rewrite lookup_singleton_eq.
    cbn [showField countOrZero]. case_bool_decide as Hn; [by rewrite Hn|done]. }
  split; [exact H1|]. split.
  - unfold matchMessage, countsText.
    rewrite lookup_insert_eq.
    rewrite !lookup_insert_ne by done. rewrite lookup_singleton_ne by done.
    rewrite lookup_singleton_eq. reflexivity.
  - unfold handleMatch. by rewrite H1.
Qed.

(** The handler takes the matched total from the field [matched]: for a
    response that names it [matched_total] it shows [undefined]. *)
Lemma matched_total_not_read :
  matchMessage (matchedTotalShape 5 2 1)
  = "Matched: undefined total (2 new), Unmatched: 1"
  ∧ matchMessage (matchedTotalShape 5 2 1) ≠ countsText 5 2 1.
Proof. split; [by vm_compute|]. vm_compute. discriminate. Qed.

(** ** The policy matcher *)

Module MatcherFacts.
Import Matcher.

Lemma count_nil {A} (p : A → bool) : count p [] = 0%nat.
Proof. reflexivity. Qed.

Lemma count_cons {A} (p : A → bool) x l :
  count p (x :: l) = ((if p x then 1 else 0) + count p l)%nat.
Proof.
  unfold count. destruct (p x) eqn:Hx.
  - by rewrite filter_cons_True.
  - rewrite filter_cons_False; [done|]. by rewrite Hx.
Qed.

Lemma count_fmap {A B} (p : B → bool) (f : A → B) l :
  count p (f <$> l) = count (λ x, p (f x)) l.
Proof.
  induction l as [|x l IH]; [done|].
  rewrite fmap_cons, !count_cons. by rewrite IH.
Qed.

Lemma count_ext {A} (p q : A → bool) l :
  Forall (λ x, p x = q x) l → count p l = count q l.
Proof.
  induction 1 as [|x l Hx _ IH]; [done|].
  rewrite !count_cons. by rewrite Hx, IH.
Qed.

Lemma count_split {A} (p : A → bool) l :
  (count p l + count (λ x, negb (p x)) l = length l)%nat.
Proof.
  induction l as [|x l IH]; [done|].
  rewrite !count_cons. cbn [length]. destruct (p x); simpl; lia.
Qed.

Lemma count_le {A} (p q : A → bool) l :
  (∀ x, p x = true → q x = true) → (count p l ≤ count q l)%nat.
Proof.
  intros Hpq. induction l as [|x l IH]; [done|].
  rewrite !count_cons. pose proof (Hpq x) as Hx.
  destruct (p x), (q x); simpl; try lia. all: by specialize (Hx eq_refl).
Qed.

Lemma count_none {A} (p : A → bool) l :
  Forall (λ x, p x = false) l → count p l = 0%nat.
Proof.
  induction 1 as [|x l Hx _ IH]; [done|].
  rewrite count_cons. by rewrite Hx, IH.
Qed.

Section Facts.

Variable normalize : string → string.
Variable similarity : RawRow → Sale → Qc.
Variable threshold : Qc.

Lemma match_line_row sales l :
  row (match_line normalize similarity threshold sales l) = row l.
Proof.
  unfold match_line. case_bool_decide; [done|].
  destruct (exact_hit _ _ _); [done|]. by destruct (fuzzy_hit _ _ _ _).
Qed.

(** A line matched with exact confidence is kept by a run. *)
Lemma match_line_exact sales l :
  match_confidence l = exact →
  match_line normalize similarity threshold sales l = l.
Proof. intros H. unfold match_line. by rewrite bool_decide_eq_true_2. Qed.

(** Resolving a line again, against the same sales, changes nothing. *)
Lemma match_line_idemp sales l :
  match_line normalize similarity threshold sales
    (match_line normalize similarity threshold sales l)
  = match_line normalize similarity threshold sales l.
Proof.
  destruct (decide (match_confidence l = exact)) as [Hl|Hl].
  { rewrite (match_line_exact sales l Hl). by apply match_line_exact. }
  destruct (exact_hit normalize sales (row l)) as [s|] eqn:He.
  { assert (match_line normalize similarity threshold sales l
            = {| row := row l; assignment := Assigned exact (producer s) |})
      as ->.
    { unfold match_line. rewrite bool_decide_eq_false_2 by done.
      by rewrite He. }
    by apply match_line_exact. }
  destruct (fuzzy_hit similarity threshold sales (row l)) as [s|] eqn:Hf.
  - assert (match_line normalize similarity threshold sales l
            = {| row := row l; assignment := Assigned fuzzy (producer s) |})
      as ->.
    { unfold match_line. rewrite bool_decide_eq_false_2 by done.
      by rewrite He, Hf. }
    unfold match_line. rewrite bool_decide_eq_false_2 by done.
    cbn [row]. by rewrite He, Hf.
  - assert (match_line normalize similarity threshold sales l
            = {| row := row l; assignment := Unassigned |}) as ->.
    { unfold match_line. rewrite bool_decide_eq_false_2 by done.
      by rewrite He, Hf. }
    unfold match_line. rewrite bool_decide_eq_false_2 by done.
    cbn [row]. by rewrite He, Hf.
Qed.

(** How a line that is not matched exactly is resolved: a sale with the
    same normalised policy number gives [exact] and the producer of such
    a sale; without one, a sale whose similarity reaches the threshold
    gives [fuzzy] and the producer of such a sale; without either the
    line is unmatched. *)
Lemma match_line_cases sales l :
  match_confidence l ≠ exact →
  let l' := match_line normalize similarity threshold sales l in
  let same_policy s :=
    normalize (sale_policy_number s) = normalize (policy_number (row l)) in
  let similar s := threshold ≤ similarity (row l) s in
  ((∃ s, s ∈ sales ∧ same_policy s) →
     match_confidence l' = exact
     ∧ ∃ s, s ∈ sales ∧ same_policy s
            ∧ assigned_agent_id l' = Some (producer s))
  ∧ ((∀ s, s ∈ sales → ¬ same_policy s) → (∃ s, s ∈ sales ∧ similar s) →
     match_confidence l' = fuzzy
     ∧ ∃ s, s ∈ sales ∧ similar s
            ∧ assigned_agent_id l' = Some (producer s))
  ∧ ((∀ s, s ∈ sales → ¬ same_policy s) → (∀ s, s ∈ sales → ¬ similar s) →
     assignment l' = Unassigned).
Proof.
  intros Hl l' same_policy similar. subst l'. unfold match_line.
  rewrite bool_decide_eq_false_2 by done.
  destruct (exact_hit normalize sales (row l)) as [s|] eqn:He.
  - apply find_some in He as [Hin Hs]. apply list_elem_of_In in Hin.
    apply bool_decide_eq_true in Hs.
    split; [|split].
    + intros _. split; [done|]. by exists s.
    + intros Hno _. by destruct (Hno s Hin).
    + intros Hno _. by destruct (Hno s Hin).
  - pose proof (find_none _ _ He) as Hnone.
    assert (Hno : ∀ s, s ∈ sales → ¬ same_policy s).
    { intros s Hin%list_elem_of_In Hs. specialize (Hnone s Hin).
      apply bool_decide_eq_false in Hnone. by apply Hnone. }
    split; [|split].
    + intros (s & Hin & Hs). by destruct (Hno s Hin).
    + intros _ (s0 & Hin0 & Hs0).
      destruct (fuzzy_hit similarity threshold sales (row l)) as [s|] eqn:Hf.
      * apply find_some in Hf as [Hin Hs]. apply list_elem_of_In in Hin.
        apply bool_decide_eq_true in Hs. split; [done|]. by exists s.
      * apply list_elem_of_In in Hin0.
        pose proof (find_none _ _ Hf s0 Hin0) as Hnf.
        apply bool_decide_eq_false in Hnf. by destruct Hnf.
    + intros _ Hnf.
      destruct (fuzzy_hit similarity threshold sales (row l)) as [s|] eqn:Hf;
        [|done].
      apply find_some in Hf as [Hin Hs]. apply list_elem_of_In in Hin.
      apply bool_decide_eq_true in Hs. by destruct (Hnf s Hin).
Qed.

(** After a run a line has an assigned agent exactly when it is matched,
    and confidence [none] exactly when it is not. *)
Lemma match_line_invariant sales l :
  let l' := match_line normalize similarity threshold sales l in
  (is_matched l' = true ↔ is_Some (assigned_agent_id l'))
  ∧ (is_matched l' = false ↔ match_confidence l' = none).
Proof.
  unfold match_line. case_bool_decide as Hl.
  - unfold is_matched, assigned_agent_id, match_confidence in *.
    destruct (assignment l) as [|k a]; [done|]. subst k. cbn.
    split; split; try done; try (by eexists).
  - destruct (exact_hit _ _ _); [|destruct (fuzzy_hit _ _ _ _)]; cbn;
      split; split; try done; try (by eexists); try (by intros [? [=]]).
Qed.

Lemma becomes_matched_again sales l :
  becomes_matched normalize similarity threshold sales
    (match_line normalize similarity threshold sales l)
  = false.
Proof.
  unfold becomes_matched. rewrite match_line_idemp.
  by destruct (is_matched (match_line normalize similarity threshold sales l)).
Qed.

End Facts.

End MatcherFacts.

(** C5. A run of the matcher on the lines of an import returns three
    counts, [matched_total], [newly_matched] and [unmatched].  The run
    keeps every raw row, once; the matched total and the unmatched count
    are those of the lines after the run and add up to the number of
    lines; the newly matched lines are among the matched ones.  On a
    first run, when no line is matched yet, every matched line is newly
    matched; a run on the result of a run, with the same sales, leaves
    the lines, the matched total and the unmatched count as they are and
    reports no newly matched line.  A line matched exactly, by an earlier
    run or by an operator, is kept; any other line gets confidence
    [exact] and the producer of a sale with its normalised policy number
    when there is one, else [fuzzy] and the producer of a sale whose
    similarity reaches the threshold when there is one, and is unmatched
    otherwise.  After the run a line has an assigned
    agent exactly when it is matched, and confidence [none] exactly when
    it is not.  The match entrypoint hands the three counts to
    [handleMatch], which shows them. *)
Theorem matcher_returns_counts
    (normalize : string → string)
    (similarity : Matcher.RawRow → Matcher.Sale → Qc) (threshold : Qc)
    (sales : list Matcher.Sale) (lines : list Matcher.StatementLine)
    (importId : Z) :
  let result := Matcher.run normalize similarity threshold sales lines in
  let c := result.2 in
  let again := Matcher.run normalize similarity threshold sales result.1 in
  Matcher.row <$> result.1 = Matcher.row <$> lines
  ∧ Matcher.matched_total c = Matcher.count Matcher.is_matched result.1
  ∧ Matcher.unmatched c
    = Matcher.count (λ l, negb (Matcher.is_matched l)) result.1
  ∧ (Matcher.matched_total c + Matcher.unmatched c = length lines)%nat
  ∧ (Matcher.newly_matched c ≤ Matcher.matched_total c)%nat
  ∧ Matcher.newly_matched c
    = Matcher.count
        (λ l, negb (Matcher.is_matched l)
              && Matcher.is_matched
                   (Matcher.match_line normalize similarity threshold sales l))
        lines
  ∧ (Forall (λ l, Matcher.is_matched l = false) lines →
     Matcher.newly_matched c = Matcher.matched_total c)
  ∧ (again.1 = result.1
     ∧ Matcher.matched_total again.2 = Matcher.matched_total c
     ∧ Matcher.unmatched again.2 = Matcher.unmatched c
     ∧ Matcher.newly_matched again.2 = 0%nat)
  ∧ (∀ l, l ∈ lines → Matcher.match_confidence l = Matcher.exact →
          Matcher.match_line normalize similarity threshold sales l = l)
  ∧ (∀ s l, Matcher.match_line normalize similarity threshold sales
              (Matcher.assign s l) = Matcher.assign s l)
  ∧ (∀ l, l ∈ lines → Matcher.match_confidence l ≠ Matcher.exact →
       let l' := Matcher.match_line normalize similarity threshold sales l in
       let same_policy s :=
         normalize (Matcher.sale_policy_number s)
         = normalize (Matcher.policy_number (Matcher.row l)) in
       let similar s := threshold ≤ similarity (Matcher.row l) s in
       ((∃ s, s ∈ sales ∧ same_policy s) →
          Matcher.match_confidence l' = Matcher.exact
          ∧ ∃ s, s ∈ sales ∧ same_policy s
                 ∧ Matcher.assigned_agent_id l' = Some (Matcher.producer s))
       ∧ ((∀ s, s ∈ sales → ¬ same_policy s) →
          (∃ s, s ∈ sales ∧ similar s) →
          Matcher.match_confidence l' = Matcher.fuzzy
          ∧ ∃ s, s ∈ sales ∧ similar s
                 ∧ Matcher.assigned_agent_id l' = Some (Matcher.producer s))
       ∧ ((∀ s, s ∈ sales → ¬ same_policy s) →
          (∀ s, s ∈ sales → ¬ similar s) →
          Matcher.assignment l' = Matcher.Unassigned))
  ∧ (∀ l, l ∈ result.1 →
          (Matcher.is_matched l = true
           ↔ is_Some (Matcher.assigned_agent_id l))
          ∧ (Matcher.is_matched l = false
             ↔ Matcher.match_confidence l = Matcher.none))
  ∧ handleMatch importId (inl (matchResponse c))
    = [SetActionLoading (Some "match"); ApiMatch importId;
       Alert (countsText (Z.of_nat (Matcher.matched_total c))
                (Z.of_nat (Matcher.newly_matched c))
                (Z.of_nat (Matcher.unmatched c)));
       LoadImports; LoadDetail importId; SetActionLoading None].
Proof.
  intros result c again. subst again c result.
  unfold Matcher.run. cbn [fst snd Matcher.matched_total
    Matcher.newly_matched Matcher.unmatched].
  set (ml := Matcher.match_line normalize similarity threshold sales).
  assert (Hidem : ml <$> (ml <$> lines) = ml <$> lines).
  { rewrite <- list_fmap_compose. apply list_fmap_ext.
    intros i l _. apply MatcherFacts.match_line_idemp. }
  split_and!; [|done|done| | |done| | | | | | | | | |].
  - rewrite <- list_fmap_compose. apply list_fmap_ext.
    intros i l _. apply MatcherFacts.match_line_row.
  - rewrite MatcherFacts.count_split. by rewrite length_fmap.
  - rewrite MatcherFacts.count_fmap. apply MatcherFacts.count_le.
    intros l. unfold Matcher.becomes_matched. fold ml.
    by intros [_ ?]%andb_true_iff.
  - intros Hfresh. rewrite MatcherFacts.count_fmap.
    apply MatcherFacts.count_ext. eapply Forall_impl; [exact Hfresh|].
    intros l Hl. unfold Matcher.becomes_matched. fold ml. by rewrite Hl.
  - by rewrite Hidem.
  - by rewrite Hidem.
  - by rewrite Hidem.
  - rewrite MatcherFacts.count_fmap. apply MatcherFacts.count_none.
    apply Forall_forall. intros l _.
    apply MatcherFacts.becomes_matched_again.
  - intros l _ Hl. by apply MatcherFacts.match_line_exact.
  - intros s l. by apply MatcherFacts.match_line_exact.
  - intros l _ Hl. by apply MatcherFacts.match_line_cases.
  - intros l' (l & -> & _)%list_elem_of_fmap.
    apply MatcherFacts.match_line_invariant.
  - apply handleMatch_shows_counts.
Qed.

Lemma matcher_returns_counts_witness :
  Forall (λ l, Matcher.is_matched l = false) freshLines
  ∧ Matcher.newly_matched
      (Matcher.run (λ s, s) sameInsured 1 knownSales freshLines).2
    = Matcher.matched_total
        (Matcher.run (λ s, s) sameInsured 1 knownSales freshLines).2
  ∧ (Matcher.run (λ s, s) sameInsured 1 knownSales freshLines).2
    = {| Matcher.matched_total := 2; Matcher.newly_matched := 2;
         Matcher.unmatched := 1 |}.
Proof.
  assert (H : Forall (λ l, Matcher.is_matched l = false) freshLines)
    by (repeat constructor).
  split; [exact H|]. split; [|vm_compute; reflexivity].
  exact (proj1 (proj2 (proj2 (proj2 (proj2 (proj2 (proj2
    (matcher_returns_counts (λ s, s) sameInsured 1 knownSales freshLines 3)))))))
    H).
Defined.

(** ** The tier resolver *)

Module TierFacts.
Import TierResolver.

Lemma prior_period_ne (p : Period) : prior_period p ≠ p.
Proof.
  unfold prior_period. destruct p as [y m]. simpl.
  case_bool_decide as Hm; intros Heq; injection Heq; intros; lia.
Qed.

Lemma prior_period_valid (p : Period) : valid p → valid (prior_period p).
Proof.
  unfold valid, prior_period. destruct p as [y m]. simpl.
  case_bool_decide; simpl; lia.
Qed.

Lemma prior_period_index (p : Period) :
  valid p → month_index (prior_period p) = (month_index p - 1)%Z.
Proof.
  unfold valid, prior_period, month_index. destruct p as [y m]. simpl.
  case_bool_decide; simpl; lia.
Qed.

Lemma with_premium_other wp agent p premium a q :
  q ≠ p → with_premium wp agent p premium a q = wp a q.
Proof.
  intros Hne. unfold with_premium. rewrite bool_decide_eq_false_2; [done|].
  by intros [_ ?].
Qed.

Lemma in_range_within top t premium :
  in_range top t premium = true
  ↔ min_written_premium t ≤ premium
    ∧ ∀ m, max_written_premium t = Some m →
           if top then premium ≤ m else premium < m.
Proof.
  unfold in_range. rewrite andb_true_iff, bool_decide_eq_true.
  destruct (max_written_premium t) as [m|]; destruct top;
    rewrite ?bool_decide_eq_true; split.
  all: try (intros [H1 H2]; split; [done|]; by intros ? [= <-]).
  all: try (intros [H1 H2]; split; [done|]; by apply H2).
  all: intros [H1 H2]; split; done.
Qed.

(** The tier the lookup gives is the first one, in the order of the
    table, whose range holds the premium; the range of the last tier
    includes its maximum. *)
Lemma lookup_tier_Some tiers premium t :
  lookup_tier tiers premium = Some t →
  ∃ earlier later,
    tiers = earlier ++ t :: later
    ∧ min_written_premium t ≤ premium
    ∧ (∀ m, max_written_premium t = Some m →
            premium ≤ m ∧ (later ≠ [] → premium < m))
    ∧ Forall (λ u, ¬ within u premium) earlier.
Proof.
  induction tiers as [|u rest IH]; [done|]. cbn [lookup_tier].
  destruct (in_range (bool_decide (rest = [])) u premium) eqn:Hu.
  - intros [= <-]. exists [], rest. split; [done|].
    apply in_range_within in Hu as [Hmin Hmax]. split; [done|].
    split; [|constructor].
    intros m Hm. specialize (Hmax m Hm). case_bool_decide as Hrest.
    + split; [done|]. intros ?; done.
    + split; [by apply Qclt_le_weak|done].
  - intros Hrest. destruct (IH Hrest) as (earlier & later & -> & ? & ? & ?).
    exists (u :: earlier), later. split; [done|]. split; [done|].
    split; [done|]. constructor; [|done].
    intros [Hmin Hmax].
    rewrite bool_decide_eq_false_2 in Hu by by destruct earlier.
    assert (in_range false u premium = true); [|congruence].
    apply in_range_within. split; [done|]. exact Hmax.
Qed.

(** A gap: no tier's range holds the premium. *)
Lemma lookup_tier_None tiers premium :
  lookup_tier tiers premium = None →
  Forall (λ u, ¬ within u premium) tiers.
Proof.
  induction tiers as [|u rest IH]; [constructor|]. cbn [lookup_tier].
  destruct (in_range (bool_decide (rest = [])) u premium) eqn:Hu; [done|].
  intros Hrest. constructor; [|by apply IH].
  intros [Hmin Hmax].
  assert (in_range (bool_decide (rest = [])) u premium = true);
    [|congruence].
  apply in_range_within. split; [done|].
  intros m Hm. specialize (Hmax m Hm).
  destruct (bool_decide (rest = [])); [by apply Qclt_le_weak|done].
Qed.

End TierFacts.

(** C3. The calculator pays an agent for a target period at the rate of
    the tier resolver: the rate of the first tier, in the order of the
    table, whose range holds the agent's written premium of the month
    before the target period (ranges include their minimum and exclude
    their maximum, the last tier including it).  That premium is reported
    as the premium the tier decision was based on, and the agent's
    commission total pays every line at that rate.  Without such a tier
    the agent is left out.  The summary is the same for two premium
    tables that agree on the prior month, and replacing the premium of
    the target month itself changes nothing.  The prior month of a
    calendar month is the calendar month one before it.  The monthly pay
    view heads the summary with the period the response names as the
    basis of the tiers, and with the prior period when it names none. *)
Theorem rate_from_prior_month
    (tiers : list TierResolver.CommissionTier)
    (written_premium : Z → TierResolver.Period → Qc)
    (agent : Z) (target : TierResolver.Period)
    (lines : list Calculator.StatementLine) :
  let premium := written_premium agent (TierResolver.prior_period target) in
  (∀ s, Calculator.agent_summary tiers written_premium agent target lines
        = Some s →
     ∃ earlier t later,
       tiers = earlier ++ t :: later
       ∧ TierResolver.min_written_premium t ≤ premium
       ∧ (∀ m, TierResolver.max_written_premium t = Some m →
               premium ≤ m ∧ (later ≠ [] → premium < m))
       ∧ Forall (λ u, ¬ TierResolver.within u premium) earlier
       ∧ Calculator.commission_rate s = TierResolver.commission_rate t
       ∧ Calculator.tier_level s = TierResolver.tier_level t
       ∧ Calculator.tier_premium s = premium
       ∧ Calculator.total_agent_commission (Calculator.totals s)
         = Calculator.sumQc
             (Calculator.line_commission (TierResolver.commission_rate t)
                <$> lines)
       ∧ TierResolver.resolve tiers written_premium agent target
         = Some (Calculator.commission_rate s))
  ∧ (Calculator.agent_summary tiers written_premium agent target lines = None →
     Forall (λ u, ¬ TierResolver.within u premium) tiers
     ∧ TierResolver.resolve tiers written_premium agent target = None)
  ∧ (∀ other : Z → TierResolver.Period → Qc,
       other agent (TierResolver.prior_period target) = premium →
       Calculator.agent_summary tiers other agent target lines
       = Calculator.agent_summary tiers written_premium agent target lines)
  ∧ (∀ this_month,
       Calculator.agent_summary tiers
         (TierResolver.with_premium written_premium agent target this_month)
         agent target lines
       = Calculator.agent_summary tiers written_premium agent target lines)
  ∧ (TierResolver.valid target →
       TierResolver.valid (TierResolver.prior_period target)
       ∧ TierResolver.month_index (TierResolver.prior_period target)
         = (TierResolver.month_index target - 1)%Z)
  ∧ (∀ summary based,
       tier_based_on summary = Some based → based ≠ "" →
       ratesBasedOn summary
       = "Rates based on " +:+ based +:+ " written premium")
  ∧ (∀ summary p,
       tier_based_on summary = None ∨ tier_based_on summary = Some "" →
       prior_period summary = Some p →
       ratesBasedOn summary
       = "Rates based on " +:+ p +:+ " written premium").
Proof.
  intros premium.
  split; [|split; [|split; [|split; [|split; [|split]]]]].
  - intros s. unfold Calculator.agent_summary, TierResolver.resolve,
      TierResolver.resolve_tier. fold premium.
    destruct (TierResolver.lookup_tier tiers premium) as [t|] eqn:Ht; [|done].
    intros [= <-].
    destruct (TierFacts.lookup_tier_Some _ _ _ Ht)
      as (earlier & later & Heq & Hmin & Hmax & Hfirst).
    exists earlier, t, later. simpl. done.
  - unfold Calculator.agent_summary, TierResolver.resolve,
      TierResolver.resolve_tier. fold premium.
    destruct (TierResolver.lookup_tier tiers premium) as [t|] eqn:Ht; [done|].
    intros _. split; [|done]. by apply TierFacts.lookup_tier_None.
  - intros other Hsame. unfold Calculator.agent_summary,
      TierResolver.resolve_tier. by rewrite Hsame.
  - intros this_month. unfold Calculator.agent_summary,
      TierResolver.resolve_tier.
    rewrite TierFacts.with_premium_other; [done|].
    apply TierFacts.prior_period_ne.
  - intros Hv. split.
    + by apply TierFacts.prior_period_valid.
    + by apply TierFacts.prior_period_index.
  - intros summary based Hb Hne. unfold ratesBasedOn, orText. rewrite Hb.
    by rewrite bool_decide_eq_false_2.
  - intros summary p [Hb|Hb] Hp; unfold ratesBasedOn, orText;
      rewrite Hb, Hp; done.
Qed.

Lemma rate_from_prior_month_witness :
  Calculator.agent_summary TierResolver.default_tiers decemberTable 7
    january2024 positiveLines
  = Some decemberSummary
  ∧ ∃ earlier t later,
      TierResolver.default_tiers = earlier ++ t :: later
      ∧ TierResolver.min_written_premium t
        ≤ decemberTable 7 (TierResolver.prior_period january2024)
      ∧ (∀ m, TierResolver.max_written_premium t = Some m →
              decemberTable 7 (TierResolver.prior_period january2024) ≤ m
              ∧ (later ≠ [] →
                 decemberTable 7 (TierResolver.prior_period january2024) < m))
      ∧ Forall (λ u, ¬ TierResolver.within u
                         (decemberTable 7
                            (TierResolver.prior_period january2024)))
          earlier
      ∧ Calculator.commission_rate decemberSummary
        = TierResolver.commission_rate t
      ∧ Calculator.tier_level decemberSummary = TierResolver.tier_level t
      ∧ Calculator.tier_premium decemberSummary
        = decemberTable 7 (TierResolver.prior_period january2024)
      ∧ Calculator.total_agent_commission
          (Calculator.totals decemberSummary)
        = Calculator.sumQc
            (Calculator.line_commission (TierResolver.commission_rate t)
               <$> positiveLines)
      ∧ TierResolver.resolve TierResolver.default_tiers decemberTable 7
          january2024
        = Some (Calculator.commission_rate decemberSummary).
Proof.
  assert (H : Calculator.agent_summary TierResolver.default_tiers
                decemberTable 7 january2024 positiveLines
              = Some decemberSummary) by (vm_compute; reflexivity).
  split; [exact H|].
  exact (proj1 (rate_from_prior_month TierResolver.default_tiers
                  decemberTable 7 january2024 positiveLines)
           decemberSummary H).
Defined.

(** With the default tiers, an agent who wrote 20000 in December and
    120000 in January is paid in January at the rate of the first tier. *)
Example december_decides_january :
  TierResolver.resolve TierResolver.default_tiers decemberTable 7 january2024
  = Some (Q2Qc (10 # 100)).
Proof. vm_compute. reflexivity. Qed.

(** A premium on the boundary of two tiers belongs to the higher one, and
    an agent without premium in the prior month is in the lowest tier. *)
Example boundary_belongs_to_higher_tier :
  TierResolver.tier_level <$>
    TierResolver.lookup_tier TierResolver.default_tiers (Qc_of_Z 50000)
  = Some 2%Z
  ∧ TierResolver.tier_level <$>
      TierResolver.lookup_tier TierResolver.default_tiers 0
    = Some 1%Z.
Proof. split; vm_compute; reflexivity. Qed.

(** ** The commission calculator *)

Module CalculatorFacts.
Import Calculator.

Lemma total_split (rate : Qc) (lines : list StatementLine) :
  total_agent_commission (compute_totals rate lines)
  = total_agent_commission
      (compute_totals rate (filter (λ l, is_chargeback l = false) lines))
    + total_agent_commission
        (compute_totals rate (filter (λ l, is_chargeback l = true) lines)).
Proof.
  unfold compute_totals. cbn [total_agent_commission].
  induction lines as [|l lines IH]; [by vm_compute|].
  rewrite !filter_cons. cbn [fmap list_fmap sumQc foldr].
  destruct (is_chargeback l) eqn:Hc.
  - rewrite decide_False by done. rewrite decide_True by done.
    cbn [fmap list_fmap sumQc foldr].
    fold (sumQc (line_commission rate <$> lines)).
    unfold sumQc in *. rewrite IH. ring.
  - rewrite decide_True by done. rewrite decide_False by done.
    cbn [fmap list_fmap sumQc foldr].
    unfold sumQc in *. rewrite IH. ring.
Qed.

Lemma chargeback_commission_negative (rate : Qc) (l : StatementLine) :
  0 < rate → is_chargeback l = true → agent_commission l = None →
  line_commission rate l < 0.
Proof.
  intros Hr Hc Hn. unfold line_commission. rewrite Hn.
  unfold is_chargeback in Hc. apply bool_decide_eq_true in Hc.
  rewrite <- (Qcmult_0_l rate). by apply Qcmult_lt_compat_r.
Qed.

Lemma chargebacks_total_negative (rate : Qc) (lines : list StatementLine) :
  0 < rate →
  Forall (λ l, is_chargeback l = true ∧ agent_commission l = None) lines →
  lines ≠ [] →
  total_agent_commission (compute_totals rate lines) < 0.
Proof.
  intros Hr Hall Hne. unfold compute_totals. cbn [total_agent_commission].
  induction Hall as [|l lines [Hc Hn] Hall IH]; [done|].
  cbn [fmap list_fmap sumQc foldr].
  destruct lines as [|l' lines].
  - cbn. rewrite Qcplus_0_r. by apply chargeback_commission_negative.
  - apply Qcplus_neg_neg.
    + by apply chargeback_commission_negative.
    + by apply IH.
Qed.

Lemma shown_unadjusted (agent : Z) (rate : Qc) (lines : list StatementLine) :
  getAdjustedCommission ∅ ∅ (summaryOf agent rate lines)
  = Num (total_agent_commission (compute_totals rate lines)).
Proof.
  unfold getAdjustedCommission, getAdjustedCommissionWith, getAdjustment,
    getBonus. rewrite !lookup_empty. cbn [orZero].
  rewrite bool_decide_eq_true_2 by done.
  unfold basePay, summaryOf, Js.or. cbn.
  by rewrite Qcplus_0_r.
Qed.

End CalculatorFacts.

Lemma Qc_of_Z_sum3 (a b c : Z) (rate : Qc) :
  Qc_of_Z a * rate + (Qc_of_Z b * rate + (Qc_of_Z c * rate + 0))
  = Qc_of_Z (a + b + c) * rate.
Proof. rewrite !Z2Qc_inj_add. ring. Qed.

Lemma Qc_of_Z_sum2 (a b : Z) (rate : Qc) :
  Qc_of_Z a * rate + (Qc_of_Z b * rate + 0) = Qc_of_Z (a + b) * rate.
Proof. rewrite !Z2Qc_inj_add. ring. Qed.

(** C2. For a positive rate, the calculator's total for an agent is the
    total of the lines with non-negative premium plus the total of the
    chargeback lines, and the chargeback lines that are paid at the rate
    make it smaller; the monthly pay view shows the total as it is, with
    its sign.  For the premiums [+1000, +500, -300] the total is
    [1200 * rate], less than the [1500 * rate] of the two positive
    lines; for [+500, -1000] the total is [-500 * rate], which is
    negative, and that is what the view shows. *)
Theorem chargebacks_subtract_unfloored
    (agent : Z) (rate : Qc) (lines : list Calculator.StatementLine) :
  0 < rate →
  let total := λ ls,
    Calculator.total_agent_commission (Calculator.compute_totals rate ls) in
  let kept := filter (λ l, Calculator.is_chargeback l = false) lines in
  let charged := filter (λ l, Calculator.is_chargeback l = true) lines in
  total lines = total kept + total charged
  ∧ (Forall (λ l, Calculator.agent_commission l = None) charged →
     charged ≠ [] → total lines < total kept)
  ∧ getAdjustedCommission ∅ ∅ (summaryOf agent rate lines) = Num (total lines)
  ∧ positiveLines
    = filter (λ l, Calculator.is_chargeback l = false) mixedLines
  ∧ total mixedLines = Qc_of_Z 1200 * rate
  ∧ total positiveLines = Qc_of_Z 1500 * rate
  ∧ total mixedLines < total positiveLines
  ∧ total exceededLines = Qc_of_Z (-500) * rate
  ∧ total exceededLines < 0
  ∧ getAdjustedCommission ∅ ∅ (summaryOf agent rate exceededLines)
    = Num (Qc_of_Z (-500) * rate).
Proof.
  intros Hr total kept charged.
  assert (Hmixed : total mixedLines = Qc_of_Z 1200 * rate).
  { subst total. cbn. rewrite Qc_of_Z_sum3. reflexivity. }
  assert (Hpos : total positiveLines = Qc_of_Z 1500 * rate).
  { subst total. cbn. rewrite Qc_of_Z_sum2. reflexivity. }
  assert (Hexc : total exceededLines = Qc_of_Z (-500) * rate).
  { subst total. cbn. rewrite Qc_of_Z_sum2. reflexivity. }
  split; [apply CalculatorFacts.total_split|].
  split.
  { intros Hnone Hne. subst total. cbv beta.
    rewrite (CalculatorFacts.total_split rate lines). fold kept charged.
    rewrite <- (Qcplus_0_r (Calculator.total_agent_commission
                             (Calculator.compute_totals rate kept))) at 2.
    apply Qcplus_lt_mono_l.
    apply CalculatorFacts.chargebacks_total_negative; [done| |done].
    apply Forall_forall. intros l Hl. split.
    - subst charged. by apply list_elem_of_filter in Hl as [Hc _].
    - by apply (proj1 (Forall_forall _ _) Hnone). }
  split; [apply CalculatorFacts.shown_unadjusted|].
  split; [by vm_compute|].
  split; [exact Hmixed|]. split; [exact Hpos|].
  split.
  { rewrite Hmixed, Hpos. apply Qcmult_lt_compat_r; [done|].
    by apply Z2Qc_inj_lt. }
  split; [exact Hexc|].
  split.
  { rewrite Hexc. rewrite <- (Qcmult_0_l rate).
    apply Qcmult_lt_compat_r; [done|].
    rewrite <- Z2Qc_inj_0. by apply Z2Qc_inj_lt. }
  rewrite CalculatorFacts.shown_unadjusted. fold (total exceededLines).
  by rewrite Hexc.
Qed.

Lemma chargebacks_subtract_unfloored_witness :
  Calculator.total_agent_commission
    (Calculator.compute_totals (Q2Qc (1 # 10)) mixedLines)
  < Calculator.total_agent_commission
      (Calculator.compute_totals (Q2Qc (1 # 10))
         (filter (λ l, Calculator.is_chargeback l = false) mixedLines))
  ∧ getAdjustedCommission ∅ ∅ (summaryOf 7 (Q2Qc (1 # 10)) exceededLines)
    = Num (Qc_of_Z (-500) * Q2Qc (1 # 10)).
Proof.
  assert (Hr : 0 < Q2Qc (1 # 10)) by done.
  pose proof (chargebacks_subtract_unfloored 7 (Q2Qc (1 # 10)) mixedLines Hr)
    as H.
  cbv zeta in H. split.
  - apply (proj1 (proj2 H)).
    + repeat constructor.
    + discriminate.
  - exact (proj2 (proj2 (proj2 (proj2 (proj2 (proj2 (proj2 (proj2 (proj2
             H))))))))).
Defined.

(** * Further properties of the statements page *)

(** ** Overrides and the adjusted commission *)

Lemma orZero_Some (q : Qc) : orZero (Some q) = q.
Proof. by rewrite orZero_default. Qed.

Lemma adjusted_other_agent ra bo agent other a b :
  other ≠ agent_id agent →
  getAdjustedCommission (setAdjustment ra other a) (setBonus bo other b) agent
  = getAdjustedCommission ra bo agent.
Proof.
  intros Hne.
  unfold getAdjustedCommission, getAdjustedCommissionWith, getAdjustment,
    getBonus, setAdjustment, setBonus.
  by rewrite !lookup_insert_ne.
Qed.

(** X1. An override can be read back as it was set, zero included; after
    the Default button (adjustment zero) the agent's pay is base pay plus
    bonus again; and the overrides set for another agent never change this
    agent's pay. *)
Theorem override_roundtrip_and_frame
    (rateAdjustments bonuses : gmap Z Qc) (agent : AgentSummary) :
  (∀ a, getAdjustment (setAdjustment rateAdjustments (agent_id agent) a)
          (agent_id agent) = a)
  ∧ (∀ b, getBonus (setBonus bonuses (agent_id agent) b) (agent_id agent) = b)
  ∧ getAdjustedCommission
      (setAdjustment rateAdjustments (agent_id agent) 0) bonuses agent
    = add (ToNumber (basePay agent)) (Num (getBonus bonuses (agent_id agent)))
  ∧ (∀ other a b, other ≠ agent_id agent →
       getAdjustedCommission (setAdjustment rateAdjustments other a)
         (setBonus bonuses other b) agent
       = getAdjustedCommission rateAdjustments bonuses agent).
Proof.
  split; [|split; [|split]].
  - intros a. unfold getAdjustment, setAdjustment.
    by rewrite lookup_insert_eq, orZero_Some.
  - intros b. unfold getBonus, setBonus.
    by rewrite lookup_insert_eq, orZero_Some.
  - unfold getAdjustedCommission. apply adjusted_no_adjustment.
    unfold getAdjustment, setAdjustment. by rewrite lookup_insert_eq.
  - intros other a b Hne. by apply adjusted_other_agent.
Qed.

Lemma override_roundtrip_and_frame_witness :
  getAdjustedCommission (setAdjustment halfPointUp 8 1) (setBonus ∅ 8 1) agent7
  = getAdjustedCommission halfPointUp ∅ agent7.
Proof.
  apply (proj2 (proj2 (proj2 (override_roundtrip_and_frame halfPointUp ∅ agent7)))).
  discriminate.
Defined.

(** X3. The base pay is the net agent commission only when that is a
    nonzero number; a net commission that is zero, null or absent is
    replaced by the total agent commission, so without overrides a net of
    exactly zero is shown as the total. *)
Theorem zero_net_shows_total (agent : AgentSummary) :
  (∀ n, net_agent_commission agent = Number n → n ≠ 0 →
        basePay agent = Number n)
  ∧ (net_agent_commission agent = Number 0
     ∨ net_agent_commission agent = Undefined
     ∨ net_agent_commission agent = Null →
     basePay agent = total_agent_commission agent)
  ∧ (∀ t, net_agent_commission agent = Number 0 →
          total_agent_commission agent = Number t →
          getAdjustedCommission ∅ ∅ agent = Num t).
Proof.
  assert (Hfalsy : net_agent_commission agent = Number 0
     ∨ net_agent_commission agent = Undefined
     ∨ net_agent_commission agent = Null →
     basePay agent = total_agent_commission agent).
  { intros H. unfold basePay, Js.or.
    by rewrite (proj2 (truthy_false_iff _)) by tauto. }
  split; [|split; [exact Hfalsy|]].
  - intros n Hn Hne. unfold basePay, Js.or. rewrite Hn. simpl.
    by rewrite bool_decide_eq_false_2.
  - intros t Hn Ht. unfold getAdjustedCommission.
    rewrite adjusted_no_adjustment by done.
    rewrite Hfalsy by auto. rewrite Ht. unfold getBonus.
    rewrite lookup_empty. simpl. by rewrite Qcplus_0_r.
Qed.

Lemma zero_net_shows_total_witness :
  getAdjustedCommission ∅ ∅ nettedToZero = Num (Qc_of_Z 90).
Proof.
  exact (proj2 (proj2 (zero_net_shows_total nettedToZero))
           (Qc_of_Z 90) eq_refl eq_refl).
Defined.



(** ** The body of the payroll submit *)

Lemma buildAgentOverrides_empty ra bo :
  buildAgentOverrides ra bo = ∅
  ↔ ∀ k, getAdjustment ra k = 0 ∧ getBonus bo k = 0.
Proof.
  split.
  - intros He k. pose proof (buildAgentOverrides_lookup ra bo k) as Hk.
    rewrite He, lookup_empty in Hk.
    destruct (decide (overridden ra bo k)) as [Ho|Ho]; [done|].
    unfold overridden in Ho.
    destruct (decide (getAdjustment ra k = 0));
      destruct (decide (getBonus bo k = 0)); tauto.
  - intros Hall. apply map_eq. intros k.
    rewrite buildAgentOverrides_lookup, lookup_empty.
    rewrite decide_False; [done|]. unfold overridden.
    destruct (Hall k) as [-> ->]. tauto.
Qed.

(** X5. The overrides shown in the view can be read back from the submit
    body: for every agent, the entry's rate adjustment and bonus, or zero
    when the agent has no entry, are the agent's adjustment and bonus. *)
Theorem submit_body_decodes
    (period_ : string) (rateAdjustments bonuses : gmap Z Qc) (agentId : Z) :
  let body :=
    agent_overrides (handleSubmit_request period_ rateAdjustments bonuses) in
  default 0 (rate_adjustment <$> body !! agentId)
  = getAdjustment rateAdjustments agentId
  ∧ default 0 (bonus <$> body !! agentId) = getBonus bonuses agentId.
Proof.
  cbv zeta.
  change (agent_overrides (handleSubmit_request period_ rateAdjustments bonuses))
    with (buildAgentOverrides rateAdjustments bonuses).
  rewrite buildAgentOverrides_lookup.
  destruct (decide (overridden rateAdjustments bonuses agentId)) as [Ho|Ho].
  - done.
  - unfold overridden in Ho. simpl.
    destruct (decide (getAdjustment rateAdjustments agentId = 0)) as [->|];
      destruct (decide (getBonus bonuses agentId = 0)) as [->|]; tauto.
Qed.

(** X6. No entry of the submit body has both values zero; an entry exists
    only for an agent that has an entry in the adjustment or in the bonus
    dictionary; and the body is empty exactly when every agent's
    adjustment and bonus are zero. *)
Theorem submit_body_invariant
    (period_ : string) (rateAdjustments bonuses : gmap Z Qc) :
  let body :=
    agent_overrides (handleSubmit_request period_ rateAdjustments bonuses) in
  (∀ agentId o, body !! agentId = Some o →
     (rate_adjustment o ≠ 0 ∨ bonus o ≠ 0)
     ∧ (is_Some (rateAdjustments !! agentId) ∨ is_Some (bonuses !! agentId)))
  ∧ (body = ∅
     ↔ ∀ agentId, getAdjustment rateAdjustments agentId = 0
                  ∧ getBonus bonuses agentId = 0).
Proof.
  cbv zeta.
  change (agent_overrides (handleSubmit_request period_ rateAdjustments bonuses))
    with (buildAgentOverrides rateAdjustments bonuses).
  split.
  - intros agentId o Ho. rewrite buildAgentOverrides_lookup in Ho.
    destruct (decide (overridden rateAdjustments bonuses agentId))
      as [Hov|Hov]; [|done].
    injection Ho as <-. split; [exact Hov|].
    destruct Hov as [Ha|Hb]; [left|right]; by apply orZero_ne_is_Some.
  - apply buildAgentOverrides_empty.
Qed.

Lemma submit_body_invariant_witness :
  (rate_adjustment {| rate_adjustment := Q2Qc (5 # 1000); bonus := 0 |} ≠ 0
   ∨ bonus {| rate_adjustment := Q2Qc (5 # 1000); bonus := 0 |} ≠ 0)
  ∧ (is_Some (halfPointUp !! 7%Z) ∨ is_Some ((∅ : gmap Z Qc) !! 7%Z)).
Proof.
  apply (proj1 (submit_body_invariant "2024-01" halfPointUp ∅) 7%Z).
  by vm_compute.
Defined.

(** ** The upload form *)

Lemma findExisting_Some imports carrier_ period_ e :
  findExisting imports carrier_ period_ = Some e
  ↔ ∃ before after,
      imports = before ++ e :: after
      ∧ carrier e = carrier_ ∧ period e = period_
      ∧ ∀ i, i ∈ before → ¬ (carrier i = carrier_ ∧ period i = period_).
Proof.
  unfold findExisting. induction imports as [|i imports IH]; simpl.
  - split; [done|]. intros (before & after & H & _). by destruct before.
  - destruct (bool_decide (carrier i = carrier_)
              && bool_decide (period i = period_)) eqn:Hi.
    + apply andb_true_iff in Hi as [Hc Hp].
      apply bool_decide_eq_true in Hc, Hp. split.
      * intros [= <-]. exists [], imports. repeat split; try done.
        intros j Hj. by apply elem_of_nil in Hj.
      * intros (before & after & Heq & Hce & Hpe & Hnone).
        destruct before as [|b before]; simplify_eq/=.
        -- done.
        -- exfalso. eapply Hnone; [apply elem_of_cons; left; reflexivity|].
           done.
    + assert (Hno : ¬ (carrier i = carrier_ ∧ period i = period_)).
      { intros [Hc Hp]. apply andb_false_iff in Hi as [Hi|Hi];
          apply bool_decide_eq_false in Hi; done. }
      rewrite IH. split.
      * intros (before & after & -> & Hce & Hpe & Hnone).
        exists (i :: before), after. repeat split; try done.
        intros j Hj. apply elem_of_cons in Hj as [->|Hj]; [done|].
        by apply Hnone.
      * intros (before & after & Heq & Hce & Hpe & Hnone).
        destruct before as [|b before]; simplify_eq/=.
        -- by destruct Hno.
        -- exists before, after. repeat split; try done.
           intros j Hj. apply Hnone. apply elem_of_cons. by right.
Qed.

Lemma findExisting_None imports carrier_ period_ :
  findExisting imports carrier_ period_ = None
  ↔ ∀ i, i ∈ imports → ¬ (carrier i = carrier_ ∧ period i = period_).
Proof.
  unfold findExisting. induction imports as [|i imports IH]; simpl.
  - split; [|done]. intros _ j Hj. by apply elem_of_nil in Hj.
  - destruct (bool_decide (carrier i = carrier_)
              && bool_decide (period i = period_)) eqn:Hi.
    + apply andb_true_iff in Hi as [Hc Hp].
      apply bool_decide_eq_true in Hc, Hp. split; [done|].
      intros Hall. exfalso. apply (Hall i); [|done].
      apply elem_of_cons. by left.
    + rewrite IH. split.
      * intros Hall j Hj. apply elem_of_cons in Hj as [->|Hj].
        -- intros [Hc Hp]. apply andb_false_iff in Hi as [Hi|Hi];
             apply bool_decide_eq_false in Hi; done.
        -- by apply Hall.
      * intros Hall j Hj. apply Hall. apply elem_of_cons. by right.
Qed.

(** X7. The existing import that the duplicate check finds is the first
    import in the list with the selected carrier and period, and it finds
    none exactly when no import has both; so with several imports for the
    pair the confirmation of [handleUpload] quotes the first of them. *)
Theorem duplicate_check_finds_first
    (imports : list ImportRecord) (carrier_ period_ file : string)
    (confirmed : bool) (outcome : UploadResponse + option string) :
  (∀ e, findExisting imports carrier_ period_ = Some e
        ↔ ∃ before after,
            imports = before ++ e :: after
            ∧ carrier e = carrier_ ∧ period e = period_
            ∧ ∀ i, i ∈ before → ¬ (carrier i = carrier_ ∧ period i = period_))
  ∧ (findExisting imports carrier_ period_ = None
     ↔ ∀ i, i ∈ imports → ¬ (carrier i = carrier_ ∧ period i = period_))
  ∧ (∀ before e after,
       imports = before ++ e :: after →
       carrier e = carrier_ → period e = period_ →
       (∀ i, i ∈ before → ¬ (carrier i = carrier_ ∧ period i = period_)) →
       head (handleUpload imports carrier_ period_ (Some file) confirmed
               outcome)
       = Some (Confirm (duplicateConfirmText carrier_ period_ e))).
Proof.
  split; [intros e; apply findExisting_Some|].
  split; [apply findExisting_None|].
  intros before e after Himports Hc Hp Hnone.
  assert (He : findExisting imports carrier_ period_ = Some e).
  { apply findExisting_Some. by exists before, after. }
  unfold handleUpload. by rewrite He.
Qed.

Lemma duplicate_check_finds_first_witness :
  head (handleUpload [januaryHartford; januaryGrange; secondGrange] "grange"
          "2024-01" (Some "f.csv") true (inr None))
  = Some (Confirm (duplicateConfirmText "grange" "2024-01" januaryGrange)).
Proof.
  apply (proj2 (proj2 (duplicate_check_finds_first
           [januaryHartford; januaryGrange; secondGrange] "grange" "2024-01"
           "f.csv" true (inr None)))
         [januaryHartford] januaryGrange [secondGrange] eq_refl eq_refl
         eq_refl).
  intros i Hi. apply elem_of_cons in Hi as [->|Hi].
  - intros [Hc _]. discriminate.
  - by apply elem_of_nil in Hi.
Defined.

Lemma uploadAndSelect_no_confirm carrier_ period_ file outcome msg :
  Confirm msg ∉ uploadAndSelect carrier_ period_ file outcome.
Proof.
  unfold uploadAndSelect. intros Hin.
  destruct outcome as [res|detail]; [destruct (carrier_overridden res)|];
    cbn [app] in Hin; rewrite !elem_of_cons, elem_of_nil in Hin;
    repeat (destruct Hin as [Hin|Hin]; [discriminate|]); done.
Qed.

Lemma findExisting_in imports carrier_ period_ e :
  findExisting imports carrier_ period_ = Some e →
  e ∈ imports ∧ carrier e = carrier_ ∧ period e = period_.
Proof.
  intros He. apply findExisting_Some in He
    as (before & after & -> & Hc & Hp & _).
  split; [|done]. apply elem_of_app. right. apply elem_of_cons. by left.
Qed.

Lemma checklistShown_true imports period_ i :
  i ∈ imports → period i = period_ → checklistShown imports period_ = true.
Proof.
  intros Hin Hp. unfold checklistShown. apply bool_decide_eq_true.
  assert (Hf : i ∈ filter (λ i, period i = period_) imports)
    by by apply list_elem_of_filter.
  destruct (filter _ imports); [by apply elem_of_nil in Hf|simpl; lia].
Qed.

(** X8. The three duplicate indications of the upload form agree: with a
    file chosen, [handleUpload] asks for confirmation exactly when the
    warning panel is rendered; whenever the panel is rendered the period
    checklist is rendered too; and the select option of the selected
    carrier carries the tick and the suffix (uploaded) exactly when the
    panel is rendered. *)
Theorem duplicate_indications_agree
    (imports : list ImportRecord) (carrier_ period_ file : string)
    (confirmed : bool) (outcome : UploadResponse + option string)
    (c : Carrier) :
  (is_Some (duplicateWarningPanel imports carrier_ period_)
   ↔ ∃ msg, Confirm msg
            ∈ handleUpload imports carrier_ period_ (Some file) confirmed
                outcome)
  ∧ (is_Some (duplicateWarningPanel imports carrier_ period_) →
     checklistShown imports period_ = true)
  ∧ (value_ c = carrier_ →
     (is_Some (duplicateWarningPanel imports carrier_ period_)
      ↔ carrierOption imports period_ c
        = "✓  " +:+ label c +:+ " (uploaded)")).
Proof.
  unfold duplicateWarningPanel, handleUpload, carrierOption.
  split; [|split].
  - destruct (findExisting imports carrier_ period_) as [e|]; split.
    + intros _. eexists. apply elem_of_cons. by left.
    + intros _. by eexists.
    + by intros [? ?].
    + intros [msg Hin]. by apply uploadAndSelect_no_confirm in Hin.
  - destruct (findExisting imports carrier_ period_) as [e|] eqn:He;
      [|by intros [? ?]].
    intros _. apply findExisting_in in He as (Hin & _ & Hp).
    by apply (checklistShown_true _ _ e).
  - intros <-. destruct (findExisting imports (value_ c) period_) as [e|];
      split.
    + done.
    + intros _. by eexists.
    + by intros [? ?].
    + intros Heq. exfalso. revert Heq. unfold String.app at 1 3.
      discriminate.
Qed.

Lemma duplicate_indications_agree_witness :
  checklistShown [januaryGrange] "2024-01" = true.
Proof.
  apply (proj1 (proj2 (duplicate_indications_agree [januaryGrange] "grange"
                         "2024-01" "f.csv" true (inr None)
                         {| value_ := "grange"; label := "Grange" |}))).
  eexists. reflexivity.
Defined.

(** X9. The period checklist is rendered as soon as one import has the
    period, but it has no chip for Hartford or Other: when every import of
    the period is from one of these two carriers the checklist is shown
    with no chip ticked.  For each of the other nine carriers the chip is
    ticked when an import of the period has that carrier. *)
Theorem checklist_skips_hartford_and_other
    (imports : list ImportRecord) (period_ : string) :
  (∀ i, i ∈ imports → period i = period_ →
        checklistShown imports period_ = true)
  ∧ ((∀ i, i ∈ imports → period i = period_ →
           carrier i = "hartford" ∨ carrier i = "other") →
     ∀ chip, chip ∈ checklistChips imports period_ → chip.2 = false)
  ∧ (∀ c i, c ∈ checklistCarriers → i ∈ imports →
            carrier i = value_ c → period i = period_ →
            (label c, true) ∈ checklistChips imports period_)
  ∧ length (checklistChips imports period_) = 9%nat.
Proof.
  split; [|split; [|split]].
  - intros i Hin Hp. by apply (checklistShown_true _ _ i).
  - intros Hall chip Hchip. unfold checklistChips in Hchip.
    apply list_elem_of_fmap in Hchip as (c & -> & Hc). simpl.
    apply bool_decide_eq_false. intros [e He].
    apply findExisting_in in He as (Hin & Hce & Hpe).
    unfold checklistCarriers in Hc.
    apply list_elem_of_filter in Hc as [[Hno Hnh] _].
    destruct (Hall e Hin Hpe) as [H|H]; congruence.
  - intros c i Hc Hin Hci Hpi. unfold checklistChips.
    apply list_elem_of_fmap. exists c. split; [|done]. f_equal.
    symmetry. apply bool_decide_eq_true.
    destruct (findExisting imports (value_ c) period_) as [e|] eqn:He;
      [by eexists|].
    exfalso. by apply (proj1 (findExisting_None _ _ _) He i).
  - reflexivity.
Qed.

Lemma checklist_skips_hartford_and_other_witness :
  checklistShown [januaryHartford] "2024-01" = true
  ∧ ∀ chip, chip ∈ checklistChips [januaryHartford] "2024-01" →
            chip.2 = false.
Proof.
  pose proof (checklist_skips_hartford_and_other [januaryHartford] "2024-01")
    as (Hshown & Hnone & _).
  split.
  - apply (Hshown januaryHartford); [apply elem_of_cons; by left|done].
  - apply Hnone. intros i Hin _.
    apply elem_of_cons in Hin as [->|Hin]; [by left|].
    by apply elem_of_nil in Hin.
Defined.

(** X10. With a file chosen, [handleUpload] always ends by resetting the
    file input; it raises the uploading flag exactly when it lowers it
    again; the only upload it can issue is for the selected carrier,
    period and file; and when the upload fails no import is selected and
    the alert shows the error detail or, without one, Upload failed. *)
Theorem upload_housekeeping
    (imports : list ImportRecord) (carrier_ period_ file : string)
    (confirmed : bool) (outcome : UploadResponse + option string) :
  let effects :=
    handleUpload imports carrier_ period_ (Some file) confirmed outcome in
  last effects = Some ResetFileInput
  ∧ (SetUploading true ∈ effects ↔ SetUploading false ∈ effects)
  ∧ (∀ c p f, ApiUpload c p f ∈ effects →
              c = carrier_ ∧ p = period_ ∧ f = file)
  ∧ (∀ detail, outcome = inr detail →
       (∀ importId, SetSelectedImport importId ∉ effects)
       ∧ (ApiUpload carrier_ period_ file ∈ effects →
          Alert (orString (default "" detail) "Upload failed") ∈ effects)).
Proof.
  cbv zeta. unfold handleUpload, uploadAndSelect.
  destruct (findExisting imports carrier_ period_) as [e|];
    [destruct confirmed|];
    (destruct outcome as [res|d]; [destruct (carrier_overridden res)|]);
    cbn [negb app].
  all: split; [reflexivity|].
  all: split;
    [rewrite !elem_of_cons, !elem_of_nil; split; intros H;
     repeat (destruct H as [H|H]; try discriminate); tauto|].
  all: split;
    [intros c p f H; rewrite !elem_of_cons, elem_of_nil in H;
     repeat (destruct H as [H|H]; try discriminate);
     try done; by injection H as -> -> ->|].
  all: intros detail Hd; try discriminate.
  all: split;
    [intros importId H; rewrite !elem_of_cons, elem_of_nil in H;
     repeat (destruct H as [H|H]; try discriminate); done|].
  all: injection Hd as <-; intros H; rewrite !elem_of_cons, elem_of_nil in *;
    repeat (destruct H as [H|H]; try discriminate); try done; tauto.
Qed.

Lemma upload_housekeeping_witness :
  (∀ importId,
     SetSelectedImport importId
     ∉ handleUpload [] "grange" "2024-01" (Some "f.csv") false (inr None))
  ∧ (ApiUpload "grange" "2024-01" "f.csv"
       ∈ handleUpload [] "grange" "2024-01" (Some "f.csv") false (inr None) →
     Alert "Upload failed"
       ∈ handleUpload [] "grange" "2024-01" (Some "f.csv") false (inr None)).
Proof.
  exact (proj2 (proj2 (proj2
    (upload_housekeeping [] "grange" "2024-01" "f.csv" false (inr None))))
    None eq_refl).
Defined.

(** ** Carrier names and file names *)

Module TextFacts.
Import Text.

Lemma replaceFirst_length c d s :
  String.length (replaceFirst c d s) = String.length s.
Proof.
  induction s as [|a s IH]; [done|]. simpl.
  case_bool_decide; simpl; by rewrite ?IH.
Qed.

Lemma capitalizeWords_length b s :
  String.length (capitalizeWords b s) = String.length s.
Proof.
  revert b. induction s as [|a s IH]; intros b; [done|].
  simpl. by rewrite IH.
Qed.

Lemma upper_keeps_underscore a :
  bool_decide (upperWordChar a = "_"%char) = bool_decide (a = "_"%char).
Proof.
  destruct a as [[|] [|] [|] [|] [|] [|] [|] [|]]; reflexivity.
Qed.

Lemma capitalizeWords_underscores b s :
  occurrences "_" (capitalizeWords b s) = occurrences "_" s.
Proof.
  revert b. induction s as [|a s IH]; intros b; [done|].
  simpl. rewrite IH. f_equal.
  destruct (isWordChar a && negb b); [|done].
  by rewrite upper_keeps_underscore.
Qed.

Lemma replaceFirst_occurrences c d s :
  d ≠ c →
  occurrences c (replaceFirst c d s) = pred (occurrences c s).
Proof.
  intros Hne. induction s as [|a s IH]; [done|]. simpl.
  case_bool_decide as Ha; simpl.
  - by rewrite bool_decide_eq_false_2.
  - rewrite (bool_decide_eq_false_2 _ Ha). simpl. exact IH.
Qed.

Lemma occurrences_app c s t :
  occurrences c (s +:+ t) = (occurrences c s + occurrences c t)%nat.
Proof.
  induction s as [|a s IH]; [done|].
  change (String a s +:+ t) with (String a (s +:+ t)).
  simpl. rewrite IH. lia.
Qed.

Lemma replaceAll_occurrences c d s :
  d ≠ c → occurrences c (replaceAll c d s) = 0%nat.
Proof.
  intros Hne. induction s as [|a s IH]; [done|]. simpl. rewrite IH.
  destruct (decide (a = c)) as [Ha|Ha].
  - rewrite (bool_decide_eq_true_2 _ Ha). by rewrite bool_decide_eq_false_2.
  - rewrite (bool_decide_eq_false_2 (a = c)) by done.
    by rewrite bool_decide_eq_false_2.
Qed.

Lemma length_append s t :
  String.length (s +:+ t) = (String.length s + String.length t)%nat.
Proof.
  induction s as [|a s IH]; [done|].
  change (String a s +:+ t) with (String a (s +:+ t)). simpl. by rewrite IH.
Qed.

Lemma replaceAll_length c d s :
  String.length (replaceAll c d s) = String.length s.
Proof. induction s as [|a s IH]; [done|]. simpl. by rewrite IH. Qed.

End TextFacts.

(** X11. The carrier name made from the carrier value (first underscore
    to a space, then every word capitalised) is the label of the carrier
    table for every carrier of the table except nbs, which is shown as
    Nbs.  The name always has the length of the value, and it has one
    underscore less than the value when the value has any: underscores
    after the first stay. *)
Theorem carrier_names_consistent :
  (∀ c, c ∈ CARRIERS → value_ c ≠ "nbs" →
        displayCarrier (value_ c) = carrierLabel (value_ c))
  ∧ displayCarrier "nbs" = "Nbs"
  ∧ carrierLabel "nbs" = "NBS / Bridge Specialty"
  ∧ (∀ s, String.length (displayCarrier s) = String.length s)
  ∧ (∀ s, Text.occurrences "_" (displayCarrier s)
          = pred (Text.occurrences "_" s)).
Proof.
  split; [|split; [|split; [|split]]].
  - intros c Hc Hne. unfold CARRIERS in Hc.
    rewrite !elem_of_cons, elem_of_nil in Hc.
    repeat (destruct Hc as [->|Hc]; [try reflexivity; by destruct Hne|]).
    done.
  - reflexivity.
  - reflexivity.
  - intros s. unfold displayCarrier.
    by rewrite TextFacts.capitalizeWords_length, TextFacts.replaceFirst_length.
  - intros s. unfold displayCarrier.
    rewrite TextFacts.capitalizeWords_underscores.
    by apply TextFacts.replaceFirst_occurrences.
Qed.

Lemma carrier_names_consistent_witness :
  displayCarrier "first_connect" = carrierLabel "first_connect".
Proof.
  apply (proj1 carrier_names_consistent
           {| value_ := "first_connect"; label := "First Connect" |}).
  - unfold CARRIERS. do 6 (apply elem_of_cons; right).
    apply elem_of_cons. by left.
  - discriminate.
Defined.

(** X12. In the name of the downloaded PDF every space of the agent's
    name is replaced: the name has exactly the spaces of the period, and
    its length is that of the agent's name and the period plus sixteen. *)
Theorem pdf_file_name_has_no_spaces (agentName period_ : string) :
  Text.occurrences " " (pdfFileName agentName period_)
  = Text.occurrences " " period_
  ∧ String.length (pdfFileName agentName period_)
    = (String.length agentName + String.length period_ + 16)%nat.
Proof.
  unfold pdfFileName. split.
  - rewrite !TextFacts.occurrences_app.
    rewrite TextFacts.replaceAll_occurrences by done. simpl. lia.
  - rewrite !TextFacts.length_append, TextFacts.replaceAll_length. simpl. lia.
Qed.

(** ** Text search *)

Module IncludesFacts.
Import Text.

Lemma append_assoc (a b c : string) : (a +:+ b) +:+ c = a +:+ (b +:+ c).
Proof.
  induction a as [|x a IH]; [done|].
  change (String x a +:+ b) with (String x (a +:+ b)).
  change (String x (a +:+ b) +:+ c) with (String x ((a +:+ b) +:+ c)).
  by rewrite IH.
Qed.

Lemma startsWith_iff s p : startsWith s p = true ↔ ∃ t, s = p +:+ t.
Proof.
  revert s. induction p as [|x p IH]; intros s.
  - destruct s; simpl; (split; [intros _; by eexists | done]).
  - destruct s as [|a s]; simpl.
    + split; [done|]. by intros [t [=]].
    + rewrite andb_true_iff, bool_decide_eq_true, IH. split.
      * intros [-> [t ->]]. by exists t.
      * intros [t [= -> ->]]. split; [done|]. by exists t.
Qed.

Lemma includes_iff s p :
  includes s p = true ↔ ∃ a b, s = a +:+ p +:+ b.
Proof.
  induction s as [|x s IH].
  - cbn [includes]. rewrite orb_false_r, startsWith_iff. split.
    + intros [t Ht]. by exists "", t.
    + intros (a & b & Hab). destruct a as [|y a]; [|discriminate].
      by exists b.
  - cbn [includes]. rewrite orb_true_iff, startsWith_iff, IH. split.
    + intros [[t Ht]|(a & b & ->)].
      * by exists "", t.
      * by exists (String x a), b.
    + intros (a & b & Hab). destruct a as [|y a].
      * left. by exists b.
      * right. injection Hab as -> ->. by exists a, b.
Qed.

Lemma includes_suffix_of_pattern s p q :
  includes s (p +:+ q) = true → includes s q = true.
Proof.
  rewrite !includes_iff. intros (a & b & ->).
  exists (a +:+ p), b. by rewrite !append_assoc.
Qed.

Lemma includes_empty s : includes s "" = true.
Proof. apply includes_iff. by exists "", s. Qed.

End IncludesFacts.

(** X13. [TransTypeBadge] never uses its blue colour: the test for new
    comes first, and every type whose lower-cased text contains renew also
    contains new, so a renewal gets the green badge of new business. *)
Theorem renewal_badge_is_green
    (toLowerCase : string → string) (type : option string) :
  transTypeColor toLowerCase type ≠ Some Blue
  ∧ (∀ ty, type = Some ty → ty ≠ "" →
       Text.includes (toLowerCase ty) "renew" = true →
       transTypeColor toLowerCase type = Some Green).
Proof.
  assert (Hnew : ∀ t, Text.includes t "renew" = true →
                      Text.includes t "new" = true).
  { intros t. apply (IncludesFacts.includes_suffix_of_pattern t "re" "new"). }
  split.
  - unfold transTypeColor. destruct type as [ty|]; [|done].
    case_bool_decide; [done|].
    destruct (Text.includes (toLowerCase ty) "new") eqn:Hn; [done|].
    destruct (Text.includes (toLowerCase ty) "renew") eqn:Hr.
    + apply Hnew in Hr. congruence.
    + by repeat destruct (Text.includes _ _).
  - intros ty -> Hne Hr. unfold transTypeColor.
    rewrite bool_decide_eq_false_2 by done. by rewrite (Hnew _ Hr).
Qed.

Lemma renewal_badge_is_green_witness :
  transTypeColor toLowerLatin (Some "Renewal") = Some Green.
Proof.
  apply (proj2 (renewal_badge_is_green toLowerLatin (Some "Renewal"))
           "Renewal" eq_refl).
  - discriminate.
  - reflexivity.
Defined.

(** X14. The search of [LinesTable] lists only lines of the table, and
    never a line whose policy number, insured name and producer name are
    all missing, whatever the search text; with an empty search text it
    lists every line that has at least one of the three. *)
Theorem search_skips_lines_without_text
    (toLowerCase : string → string) (lines : list TableLine) :
  (∀ search l, In l (filteredLines toLowerCase lines search) →
     In l lines
     ∧ (is_Some (policy_number l) ∨ is_Some (insured_name l)
        ∨ is_Some (producer_name l)))
  ∧ (toLowerCase "" = "" →
     ∀ l, In l lines →
          is_Some (policy_number l) ∨ is_Some (insured_name l)
          ∨ is_Some (producer_name l) →
          In l (filteredLines toLowerCase lines "")).
Proof.
  split.
  - intros search l Hl. unfold filteredLines in Hl.
    apply filter_In in Hl as [Hin Hm]. split; [exact Hin|].
    unfold fieldIncludes in Hm.
    destruct (policy_number l); [left; by eexists|].
    destruct (insured_name l); [right; left; by eexists|].
    destruct (producer_name l); [right; right; by eexists|].
    done.
  - intros Hempty l Hin Hsome. unfold filteredLines.
    apply filter_In. split; [exact Hin|]. unfold fieldIncludes.
    rewrite Hempty.
    destruct Hsome as [[s ->]|[[s ->]|[s ->]]];
      rewrite IncludesFacts.includes_empty;
      by rewrite ?orb_true_r.
Qed.

Lemma search_skips_lines_without_text_witness :
  In noTextLine [noTextLine; namedLine] ∧ In namedLine
    (filteredLines toLowerLatin [noTextLine; namedLine] "").
Proof.
  split; [by left|].
  apply (proj2 (search_skips_lines_without_text toLowerLatin
                  [noTextLine; namedLine]) eq_refl namedLine).
  - right. by left.
  - right. left. by eexists.
Defined.

(** X23. The Producer column is decided by the first line of the whole
    list alone: when that line has no producer name the column is hidden,
    yet a later line is still found by searching for its producer name. *)
Theorem hidden_producer_column_is_searched
    (toLowerCase : string → string) (first l : TableLine)
    (rest : list TableLine) (search : string) :
  producer_name first = None →
  In l rest →
  fieldIncludes toLowerCase search (producer_name l) = true →
  showsProducerColumn (first :: rest) = false
  ∧ In l (filteredLines toLowerCase (first :: rest) search)
  ∧ is_Some (producer_name l).
Proof.
  intros Hfirst Hin Hmatch. split; [|split].
  - unfold showsProducerColumn. by rewrite Hfirst.
  - unfold filteredLines. apply filter_In. split; [by right|].
    by rewrite Hmatch, orb_true_r.
  - unfold fieldIncludes in Hmatch. destruct (producer_name l); [by eexists|done].
Qed.

Lemma hidden_producer_column_is_searched_witness :
  showsProducerColumn [namedLine; producedLine] = false
  ∧ In producedLine
       (filteredLines toLowerLatin [namedLine; producedLine] "SMITH")
  ∧ is_Some (producer_name producedLine).
Proof.
  apply (hidden_producer_column_is_searched toLowerLatin namedLine
           producedLine [producedLine] "SMITH" eq_refl).
  - by left.
  - reflexivity.
Defined.

(** X15. Only an administrator gets the page: the imports are loaded
    exactly for a user whose lower-cased role is admin, the page is
    rendered exactly for such a user once loading is over, a user with
    another role or none is sent to the dashboard, and a visitor without
    a user is sent home once loading is over. *)
Theorem page_is_admin_only
    (toLowerCase : string → string) (user : option User) (loading : bool) :
  (onEnter toLowerCase user loading = LoadTheImports
   ↔ ∃ u r, user = Some u ∧ role u = Some r ∧ toLowerCase r = "admin")
  ∧ (rendersPage toLowerCase user loading = true
     ↔ loading = false ∧ onEnter toLowerCase user loading = LoadTheImports)
  ∧ (onEnter toLowerCase user loading = GoDashboard
     ↔ ∃ u, user = Some u ∧ notAdmin toLowerCase u = true)
  ∧ (onEnter toLowerCase user loading = GoHome
     ↔ user = None ∧ loading = false).
Proof.
  unfold onEnter, rendersPage, notAdmin.
  destruct user as [[[r|]]|]; destruct loading; cbn [role negb andb];
    try (destruct (decide (toLowerCase r = "admin")) as [Ha|Ha];
         rewrite ?(bool_decide_eq_true_2 _ Ha),
                 ?(bool_decide_eq_false_2 _ Ha));
    cbn [role negb andb]; (split; [|split; [|split]]); split; intros H;
    try done.
  all: try (destruct H as (u & r' & ? & ? & ?); simplify_eq/=; done).
  all: try (destruct H as (u & ? & Hu); simplify_eq/=;
            rewrite ?(bool_decide_eq_true_2 _ Ha) in Hu; done).
  all: try (by apply proj1 in H).
  all: try (by apply proj2 in H).
  all: try (by eexists _, _).
  all: try (eexists; split; [reflexivity|]; cbn [role];
            by rewrite ?(bool_decide_eq_false_2 _ Ha)).
Qed.

(** ** Summary tab *)

Module SummaryFacts.
Import SummaryTab.

Definition heavier (a b : Row) : Prop := weight b ≤ weight a.

Lemma insertRow_perm x rows : insertRow x rows ≡ₚ x :: rows.
Proof.
  induction rows as [|y rows IH]; [done|]. simpl.
  case_bool_decide; [|done]. rewrite IH. apply Permutation_swap.
Qed.

Lemma insertRow_HdRel y x rows :
  heavier y x → HdRel heavier y rows → HdRel heavier y (insertRow x rows).
Proof.
  intros Hyx Hhd. destruct rows as [|z rows]; simpl.
  - by constructor.
  - case_bool_decide; constructor; [by inversion Hhd|done].
Qed.

Lemma insertRow_sorted x rows :
  Sorted heavier rows → Sorted heavier (insertRow x rows).
Proof.
  induction 1 as [|y rows Hs IH Hhd]; simpl.
  - by repeat constructor.
  - case_bool_decide as Hlt.
    + constructor; [exact IH|]. apply insertRow_HdRel; [|done].
      unfold heavier. by apply Qclt_le_weak.
    + constructor; [by constructor|]. constructor.
      unfold heavier. by apply Qcnot_lt_le.
Qed.

Lemma insertRow_stable w x rows :
  filter (λ r, weight r = w) (insertRow x rows)
  = filter (λ r, weight r = w) (x :: rows).
Proof.
  induction rows as [|y rows IH]; [done|]. simpl insertRow.
  case_bool_decide as Hlt; [|done].
  rewrite filter_cons, IH, !filter_cons.
  destruct (decide (weight y = w)) as [Hy|Hy];
    destruct (decide (weight x = w)) as [Hx|Hx]; try done.
  exfalso. rewrite Hx, Hy in Hlt. by apply (irreflexivity Qclt) in Hlt.
Qed.

Lemma opp_pos (x : Qc) : x < 0 → 0 < - x.
Proof. intros H. apply Qclt_minus_iff in H. by rewrite Qcplus_0_l in H. Qed.

Lemma opp_neg (x : Qc) : 0 < x → - x < 0.
Proof.
  intros H. apply Qclt_minus_iff. by rewrite Qcplus_0_l, Qcopp_involutive.
Qed.

End SummaryFacts.

(** X16. The rows of the transaction type breakdown are the entries of
    the summary, each once, ordered by decreasing absolute premium, so a
    type with a large negative premium ranks by its magnitude; entries of
    equal absolute premium keep the order they had. *)
Theorem summary_rows_by_magnitude (entries : list SummaryTab.Row) :
  SummaryTab.sortRows entries ≡ₚ entries
  ∧ Sorted (λ a b, SummaryTab.weight b ≤ SummaryTab.weight a)
           (SummaryTab.sortRows entries)
  ∧ (∀ w, filter (λ r, SummaryTab.weight r = w) (SummaryTab.sortRows entries)
          = filter (λ r, SummaryTab.weight r = w) entries)
  ∧ (∀ name name' s s',
       SummaryTab.premium s = - SummaryTab.premium s' →
       SummaryTab.weight (name, s) = SummaryTab.weight (name', s')).
Proof.
  split; [|split; [|split]].
  - induction entries as [|x entries IH]; [done|]. simpl.
    by rewrite SummaryFacts.insertRow_perm, IH.
  - induction entries as [|x entries IH]; [constructor|]. simpl.
    by apply SummaryFacts.insertRow_sorted.
  - intros w. induction entries as [|x entries IH]; [done|]. simpl.
    by rewrite SummaryFacts.insertRow_stable, !filter_cons, IH.
  - intros name name' s s' Hneg. unfold SummaryTab.weight, SummaryTab.abs.
    simpl. rewrite Hneg.
    destruct (decide (SummaryTab.premium s' < 0)) as [Hlt|Hge].
    + rewrite (bool_decide_eq_true_2 _ Hlt).
      rewrite bool_decide_eq_false_2; [done|].
      apply Qcle_not_lt. apply Qclt_le_weak.
      by apply SummaryFacts.opp_pos.
    + rewrite (bool_decide_eq_false_2 _ Hge).
      apply Qcnot_lt_le in Hge.
      destruct (decide (SummaryTab.premium s' = 0)) as [->|Hne].
      * by case_bool_decide.
      * rewrite bool_decide_eq_true_2; [by rewrite Qcopp_involutive|].
        apply Qcle_lt_or_eq in Hge as [Hgt|Heq]; [|congruence].
        by apply SummaryFacts.opp_neg.
Qed.

Lemma summary_rows_by_magnitude_witness :
  SummaryTab.weight ("cancellation", chargebackSummary)
  = SummaryTab.weight ("new", newBusinessSummary).
Proof.
  apply (proj2 (proj2 (proj2 (summary_rows_by_magnitude [])))).
  apply Qc_is_canon. reflexivity.
Defined.

(** ** Commissions page *)

Module TotalsFacts.
Import CommissionsPage.

Lemma add_NaN_r x : add x NaN = NaN.
Proof. by destruct x. Qed.

Lemma foldl_NaN parseFloat cs :
  foldl (λ sum c, add sum (parseFloat (commission_amount c))) NaN cs = NaN.
Proof. induction cs as [|c cs IH]; [done|]. simpl. exact IH. Qed.

Lemma total_poisoned parseFloat cs acc c :
  In c cs → parseFloat (commission_amount c) = NaN →
  foldl (λ sum c, add sum (parseFloat (commission_amount c))) acc cs = NaN.
Proof.
  intros Hin Hc. revert acc.
  induction cs as [|d cs IH]; intros acc; [done|]. simpl.
  destruct Hin as [->|Hin].
  - rewrite Hc, add_NaN_r. apply foldl_NaN.
  - by apply IH.
Qed.

End TotalsFacts.

(** X17. One commission whose amount does not parse to a number makes
    Total Earned not-a-number, and This Month as well when the commission
    is of the current period; a commission of another period never
    changes This Month. *)
Theorem unparsable_amount_poisons_total
    (parseFloat : string → number)
    (commissions : list CommissionsPage.Commission)
    (currentPeriod : string) (c : CommissionsPage.Commission) :
  In c commissions →
  parseFloat (CommissionsPage.commission_amount c) = NaN →
  CommissionsPage.total parseFloat commissions = NaN
  ∧ (CommissionsPage.commission_period c = currentPeriod →
     CommissionsPage.currentMonthTotal parseFloat currentPeriod commissions
     = NaN)
  ∧ (∀ d, CommissionsPage.commission_period d ≠ currentPeriod →
     CommissionsPage.currentMonthTotal parseFloat currentPeriod
       (d :: commissions)
     = CommissionsPage.currentMonthTotal parseFloat currentPeriod commissions).
Proof.
  intros Hin Hc. split; [|split].
  - by apply (TotalsFacts.total_poisoned parseFloat commissions _ c).
  - intros Hp. unfold CommissionsPage.currentMonthTotal, CommissionsPage.total.
    apply (TotalsFacts.total_poisoned parseFloat _ _ c); [|done].
    unfold CommissionsPage.currentMonthCommissions. apply filter_In.
    split; [done|]. by apply bool_decide_eq_true.
  - intros d Hd. unfold CommissionsPage.currentMonthTotal,
      CommissionsPage.currentMonthCommissions. simpl.
    by rewrite bool_decide_eq_false_2.
Qed.

Lemma unparsable_amount_poisons_total_witness :
  CommissionsPage.total (λ s, if bool_decide (s = "12.50")
                              then Num (Q2Qc (25 # 2)) else NaN)
    [paidCommission; brokenCommission]
  = NaN.
Proof.
  apply (proj1 (unparsable_amount_poisons_total _
                  [paidCommission; brokenCommission] "2024-01"
                  brokenCommission (or_intror (or_introl eq_refl)) eq_refl)).
Defined.

(** ** Handlers on the page state *)

(** X18. After a successful match the agent summary is cleared, so the
    Agent Pay tab no longer shows pay computed before the match, while a
    successful calculation stores its summary and opens the Agent Pay
    tab; a failed match or calculation leaves summary, detail and tab as
    they were; and in every case the action-loading marker is cleared at
    the end. *)
Theorem rematch_clears_agent_pay
    (ReconciliationData SummaryData : Type)
    (importId : Z) (listed : option (list ImportRecord))
    (got : option ReconciliationData)
    (s : Page.State ReconciliationData SummaryData) :
  (∀ data,
     let s' := (Page.handleMatch _ _ importId (inl data) listed got s).1 in
     Page.agentSummary _ _ s' = None
     ∧ Page.activeTab _ _ s' = Page.activeTab _ _ s
     ∧ Page.loadingDetail _ _ s' = false)
  ∧ (∀ data,
       let s' := (Page.handleCalculate _ _ importId (inl data) got s).1 in
       Page.agentSummary _ _ s' = Some data
       ∧ Page.activeTab _ _ s' = Page.TabAgents
       ∧ Page.loadingDetail _ _ s' = false)
  ∧ (∀ data data',
       Page.agentSummary _ _
         (Page.handleMatch _ _ importId (inl data') listed got
            (Page.handleCalculate _ _ importId (inl data) got s).1).1
       = None)
  ∧ (∀ detail,
       (Page.handleMatch _ _ importId (inr detail) listed got s).1
       = Page.setActionLoading _ _ None s
       ∧ (Page.handleCalculate _ _ importId (inr detail) got s).1
         = Page.setActionLoading _ _ None s)
  ∧ (∀ outcome,
       Page.actionLoading _ _
         (Page.handleMatch _ _ importId outcome listed got s).1 = None)
  ∧ (∀ outcome,
       Page.actionLoading _ _
         (Page.handleCalculate _ _ importId outcome got s).1 = None).
Proof.
  split; [|split; [|split; [|split; [|split]]]].
  - intros data. unfold Page.handleMatch, Page.loadImports, Page.loadDetail.
    destruct listed, got; simpl; done.
  - intros data. unfold Page.handleCalculate, Page.loadDetail.
    destruct got; simpl; done.
  - intros data data'.
    unfold Page.handleMatch, Page.loadImports, Page.loadDetail.
    destruct listed, got; simpl; done.
  - intros detail. split; reflexivity.
  - intros [data|detail]; [|done].
    unfold Page.handleMatch, Page.loadImports, Page.loadDetail.
    destruct listed, got; simpl; done.
  - intros [data|detail]; [|done].
    unfold Page.handleCalculate, Page.loadDetail.
    destruct got; simpl; done.
Qed.

(** X19. Deleting an import does nothing but ask when the user declines;
    when the delete succeeds the selection, the loaded detail and the
    agent summary are cleared if the deleted import was the selected one
    and are kept otherwise, and the imports are reloaded; when the delete
    fails the state is unchanged and the alert shows the detail or Delete
    failed. *)
Theorem delete_clears_only_selected
    (ReconciliationData SummaryData : Type)
    (importId : Z) (outcome : unit + option string)
    (listed : option (list ImportRecord))
    (s : Page.State ReconciliationData SummaryData) :
  (Page.handleDeleteImport _ _ importId false outcome listed s
   = (s, [Page.Asked
            "Delete this import and all its matched lines? This cannot be undone."]))
  ∧ (∀ confirmed,
       Page.Deleted importId
         ∈ (Page.handleDeleteImport _ _ importId confirmed outcome listed s).2
       ↔ confirmed = true)
  ∧ (∀ u, outcome = inl u →
       let s' :=
         (Page.handleDeleteImport _ _ importId true outcome listed s).1 in
       (Page.selectedImport _ _ s = Some importId →
        Page.selectedImport _ _ s' = None
        ∧ Page.reconciliation _ _ s' = None
        ∧ Page.agentSummary _ _ s' = None)
       ∧ (Page.selectedImport _ _ s ≠ Some importId →
          Page.selectedImport _ _ s' = Page.selectedImport _ _ s
          ∧ Page.reconciliation _ _ s' = Page.reconciliation _ _ s
          ∧ Page.agentSummary _ _ s' = Page.agentSummary _ _ s)
       ∧ Page.imports _ _ s' = default (Page.imports _ _ s) listed)
  ∧ (∀ detail, outcome = inr detail →
       Page.handleDeleteImport _ _ importId true outcome listed s
       = (s, [Page.Asked
                "Delete this import and all its matched lines? This cannot be undone.";
              Page.Deleted importId;
              Page.Alerted (orString (default "" detail) "Delete failed")])).
Proof.
  split; [reflexivity|]. split; [|split].
  - intros [|]; unfold Page.handleDeleteImport; cbn [negb].
    + split; [done|]. intros _.
      destruct outcome as [u|d]; [destruct (Page.loadImports _ _ _ _)|];
        cbn [snd app]; apply elem_of_cons; right; apply elem_of_cons; by left.
    + split; [|done]. intros H. cbn [snd] in H.
      rewrite !elem_of_cons, elem_of_nil in H.
      destruct H as [H|[]]. discriminate.
  - intros u ->. cbv zeta. unfold Page.handleDeleteImport, Page.loadImports.
    cbn [negb]. split; [|split].
    + intros Hsel. rewrite bool_decide_eq_true_2 by done.
      by destruct listed.
    + intros Hsel. rewrite bool_decide_eq_false_2 by done.
      by destruct listed.
    + case_bool_decide; by destruct listed.
  - intros detail ->. reflexivity.
Qed.

Lemma delete_clears_only_selected_witness :
  Page.selectedImport unit unit
    (Page.handleDeleteImport unit unit 3 true (inl tt) (Some []) selectedThree).1
  = None.
Proof.
  exact (proj1 (proj1 (proj1 (proj2 (proj2
    (delete_clears_only_selected unit unit 3 (inl tt) (Some [])
       selectedThree))) tt eq_refl) eq_refl)).
Defined.

(** ** The payroll handlers *)

Module PayrollUiFacts.
Import PayrollUi.

Lemma confirmedCall_declined question sent done_ failed period_ outcome
    fetched s :
  confirmedCall question sent done_ failed period_ false outcome fetched s
  = (s, [Asked question]).
Proof. reflexivity. Qed.

Lemma confirmedCall_requests question sent done_ failed period_ confirmed
    outcome fetched s :
  isRequest sent = true →
  filter (λ e, isRequest e = true)
    (confirmedCall question sent done_ failed period_ confirmed outcome
       fetched s).2
  = if confirmed
    then sent :: match outcome with
                 | inl _ => [FetchedDetail ("/api/payroll/detail/" +:+ period_)]
                 | inr _ => []
                 end
    else [].
Proof.
  intros Hsent. unfold confirmedCall, loadPayrollStatus.
  destruct confirmed; cbn [negb]; [|done].
  destruct outcome as [u|d]; cbn [snd];
    rewrite filter_cons, decide_False by done;
    rewrite filter_cons, decide_True by done;
    rewrite filter_cons, decide_False by done; done.
Qed.

Lemma confirmedCall_state question sent done_ failed period_ outcome
    fetched s :
  (confirmedCall question sent done_ failed period_ true outcome fetched s).1
  = {| payrollStatus := match outcome with
                        | inl _ => fetched
                        | inr _ => payrollStatus s
                        end;
       loading := false |}.
Proof. unfold confirmedCall, loadPayrollStatus. by destruct outcome. Qed.

End PayrollUiFacts.

(** X20. Each of the three payroll handlers sends no request and changes
    nothing when the user declines the question.  When the user accepts,
    the requests it sends are its one POST, followed after a success by
    the one GET that reloads the status and by nothing after a failure; it
    ends with the loading flag lowered, stores the reloaded status after a
    success, and keeps the status it had after a failure. *)
Theorem payroll_calls_need_confirmation
    (period_ : string) (rateAdjustments bonuses : gmap Z Qc)
    (handler : bool → unit + option string → option PayrollStatus →
               PayrollUi.State → PayrollUi.State * list PayrollUi.Event)
    (post : PayrollUi.Event)
    (outcome : unit + option string) (fetched : option PayrollStatus)
    (s : PayrollUi.State) :
  (handler = PayrollUi.handleSubmit period_ rateAdjustments bonuses
   ∧ post = PayrollUi.PostedSubmit
              (handleSubmit_request period_ rateAdjustments bonuses))
  ∨ (handler = PayrollUi.handleMarkPaid period_
     ∧ post = PayrollUi.Posted ("/api/payroll/mark-paid/" +:+ period_))
  ∨ (handler = PayrollUi.handleUnlock period_
     ∧ post = PayrollUi.Posted ("/api/payroll/unlock/" +:+ period_)) →
  (handler false outcome fetched s).1 = s
  ∧ filter (λ e, PayrollUi.isRequest e = true)
           (handler false outcome fetched s).2 = []
  ∧ filter (λ e, PayrollUi.isRequest e = true)
           (handler true outcome fetched s).2
    = post :: match outcome with
              | inl _ =>
                  [PayrollUi.FetchedDetail ("/api/payroll/detail/" +:+ period_)]
              | inr _ => []
              end
  ∧ PayrollUi.loading (handler true outcome fetched s).1 = false
  ∧ (∀ u, outcome = inl u →
       PayrollUi.payrollStatus (handler true outcome fetched s).1 = fetched)
  ∧ (∀ detail, outcome = inr detail →
       PayrollUi.payrollStatus (handler true outcome fetched s).1
       = PayrollUi.payrollStatus s).
Proof.
  intros [[-> ->]|[[-> ->]|[-> ->]]];
    unfold PayrollUi.handleSubmit, PayrollUi.handleMarkPaid,
      PayrollUi.handleUnlock;
    rewrite !PayrollUiFacts.confirmedCall_requests by done;
    rewrite PayrollUiFacts.confirmedCall_state;
    (split; [reflexivity|]); (split; [reflexivity|]);
    (split; [reflexivity|]); (split; [reflexivity|]);
    (split; [intros u ->; reflexivity | intros d ->; reflexivity]).
Qed.

Lemma payroll_calls_need_confirmation_witness :
  filter (λ e, PayrollUi.isRequest e = true)
    (PayrollUi.handleMarkPaid "2024-01" true (inl tt) None
       {| PayrollUi.payrollStatus := None; PayrollUi.loading := false |}).2
  = [PayrollUi.Posted "/api/payroll/mark-paid/2024-01";
     PayrollUi.FetchedDetail "/api/payroll/detail/2024-01"].
Proof.
  exact (proj1 (proj2 (proj2
    (payroll_calls_need_confirmation "2024-01" ∅ ∅
       (PayrollUi.handleMarkPaid "2024-01")
       (PayrollUi.Posted "/api/payroll/mark-paid/2024-01") (inl tt) None
       {| PayrollUi.payrollStatus := None; PayrollUi.loading := false |}
       (or_intror (or_introl (conj eq_refl eq_refl))))))).
Defined.

(** X21. For every payroll status exactly one of Submit Payroll and Unlock
    is offered.  When the status reload after a successful submit fails,
    the stored status is empty, so Submit Payroll is offered again and
    neither Mark as Paid nor Unlock is. *)
Theorem controls_after_failed_reload
    (period_ : string) (rateAdjustments bonuses : gmap Z Qc)
    (payrollStatus : option PayrollStatus) (s : PayrollUi.State) :
  offersSubmit payrollStatus = negb (offersUnlock payrollStatus)
  ∧ (let after :=
       PayrollUi.payrollStatus
         (PayrollUi.handleSubmit period_ rateAdjustments bonuses true
            (inl tt) None s).1 in
     offersSubmit after = true
     ∧ offersMarkPaid after = false
     ∧ offersUnlock after = false)
  ∧ (∀ p, is_locked p = true →
       let after :=
         PayrollUi.payrollStatus
           (PayrollUi.handleSubmit period_ rateAdjustments bonuses true
              (inl tt) (Some p) s).1 in
       offersSubmit after = false ∧ offersUnlock after = true).
Proof.
  split; [by destruct payrollStatus|]. split; [done|].
  intros p Hp. cbv zeta. unfold PayrollUi.handleSubmit.
  rewrite PayrollUiFacts.confirmedCall_state. simpl. by rewrite Hp.
Qed.

Lemma controls_after_failed_reload_witness :
  offersSubmit (Some lockedJanuary) = false
  ∧ offersUnlock (Some lockedJanuary) = true.
Proof.
  exact (proj2 (proj2 (controls_after_failed_reload "2024-01" ∅ ∅ None
     {| PayrollUi.payrollStatus := None; PayrollUi.loading := false |}))
     lockedJanuary eq_refl).
Defined.

(** ** Carrier labels *)

Lemma find_carrier x c :
  find (λ c, bool_decide (value_ c = x)) CARRIERS = Some c →
  c ∈ CARRIERS ∧ value_ c = x.
Proof.
  intros Hc. apply find_some in Hc as [Hin Hv].
  split; [by apply list_elem_of_In|]. by apply bool_decide_eq_true in Hv.
Qed.

(** X22. The label of a carrier value that is not in the carrier table is
    the value itself, the label of a value of the table is the label of
    its entry, and no label of the table is empty, so a label is empty
    only for the empty value. *)
Theorem carrier_label_falls_back (x : string) :
  ((∀ c, c ∈ CARRIERS → value_ c ≠ x) → carrierLabel x = x)
  ∧ (∀ c, c ∈ CARRIERS → carrierLabel (value_ c) = label c)
  ∧ (carrierLabel x = "" → x = "").
Proof.
  assert (Htable : ∀ c, c ∈ CARRIERS →
                        carrierLabel (value_ c) = label c ∧ label c ≠ "").
  { intros c Hc. unfold CARRIERS in Hc.
    rewrite !elem_of_cons, elem_of_nil in Hc.
    repeat (destruct Hc as [->|Hc]; [by split|]). done. }
  split; [|split].
  - intros Hnone. unfold carrierLabel.
    destruct (find _ CARRIERS) as [c|] eqn:Hc; [|done].
    apply find_carrier in Hc as [Hin Hv]. by destruct (Hnone c Hin).
  - intros c Hc. by apply Htable.
  - intros Hempty. unfold carrierLabel in Hempty.
    destruct (find _ CARRIERS) as [c|] eqn:Hc; [|done].
    apply find_carrier in Hc as [Hin Hv]. unfold orString in Hempty.
    destruct (Htable c Hin) as [_ Hne].
    by rewrite bool_decide_eq_false_2 in Hempty.
Qed.

Lemma carrier_label_falls_back_witness : carrierLabel "lloyds" = "lloyds".
Proof.
  apply (proj1 (carrier_label_falls_back "lloyds")).
  intros c Hc. unfold CARRIERS in Hc.
  rewrite !elem_of_cons, elem_of_nil in Hc.
  repeat (destruct Hc as [->|Hc]; [discriminate|]). done.
Defined.
